(** * The Grand Tree: transition engine of the interactive holiday-tree scene

    A shallow embedding of the TypeScript sources (App, HandController,
    GrandTree, TreeMaterials, geminiService) and the properties of the
    state-to-visual transition engine.

    Numbers.  A JavaScript [number] (and a GLSL [float]) is modelled by a real
    number: rounding of IEEE arithmetic is abstracted away, so "equal" below is
    equality of reals.  Loop counters, pixel bytes and array indices are
    integers ([Z], [nat]).  Where a property is about values held in a
    [Float32Array], the rounding of the store is a parameter of the
    statement.

    The repository holds two copies of App, GrandTree, TreeMaterials and
    geminiService.  Both copies are embedded; the modules are named after what
    tells the copies apart (polaroids / cards, clamped / unclamped shader,
    one default list / a literal per failure). *)

From Stdlib Require Import Reals Lra Lia ZArith List String Bool.
From Stdlib Require Import Permutation.
Import ListNotations.

Set Warnings "-abstract-large-number".

Local Open Scope R_scope.

(** ** three.js helpers used by the sources *)

Module MathUtils.

(** [THREE.MathUtils.lerp(x, y, t)] is [(1 - t) * x + t * y]. *)
Definition lerp (x y t : R) : R := (1 - t) * x + t * y.

End MathUtils.

Record Vector3 : Type := mkVector3 { vx : R; vy : R; vz : R }.

(** [v.lerpVectors(v1, v2, alpha)]: componentwise [v1 + (v2 - v1) * alpha]. *)
Definition lerpVectors (v1 v2 : Vector3) (alpha : R) : Vector3 :=
  {| vx := vx v1 + (vx v2 - vx v1) * alpha;
     vy := vy v1 + (vy v2 - vy v1) * alpha;
     vz := vz v1 + (vz v2 - vz v1) * alpha |}.

(** [Math.pow(b, 3)] and GLSL [pow(b, 3.0)] on the reals. *)
Definition pow3 (b : R) : R := b ^ 3.

(** The comparison [a > b] on numbers, as a boolean. *)
Definition Rgtb (a b : R) : bool := if Rlt_dec b a then true else false.

(** ** GrandTree: the progress integrator (the [useFrame] of both copies) *)

Module Progress.

(** [const target = isFormed ? 1 : 0]. *)
Definition target (isFormed : bool) : R := if isFormed then 1 else 0.

(** What the frame callback touches: the [currentProgress] ref, the shader
    uniforms (when [materialRef.current] is set) and the group's y rotation
    (when [groupRef.current] is set). *)
Record uniforms : Type := mkUniforms { uTime : R; uProgress : R }.

Record tree_state : Type := mkTree {
  currentProgress : R;
  material : option uniforms;
  group_rotation_y : option R
}.

(** [useFrame((state, delta) => ...)]; [spin] is the rotation factor, [0.1]
    in the polaroid copy and [0.05] in the card copy. *)
Definition useFrame (spin : R) (isFormed : bool) (elapsedTime delta : R)
    (s : tree_state) : tree_state :=
  let p := MathUtils.lerp (currentProgress s) (target isFormed) (delta * 1.5) in
  {| currentProgress := p;
     material :=
       match material s with
       | Some _ => Some {| uTime := elapsedTime; uProgress := p |}
       | None => None
       end;
     group_rotation_y :=
       match group_rotation_y s with
       | Some ry => Some (ry + delta * spin * p)
       | None => None
       end |}.

(** One integrator step on the progress value alone. *)
Definition step (isFormed : bool) (dt v : R) : R :=
  MathUtils.lerp v (target isFormed) (dt * 1.5).

(** Integration over a sequence of frame times, constant target. *)
Definition integrate (isFormed : bool) (dts : list R) (v0 : R) : R :=
  fold_left (fun v dt => step isFormed dt v) dts v0.

(** The value after [n] frames of the same duration [dt]. *)
Fixpoint iterate (isFormed : bool) (dt : R) (n : nat) (v0 : R) : R :=
  match n with
  | O => v0
  | S m => step isFormed dt (iterate isFormed dt m v0)
  end.

(** Total elapsed time of a partition, and the product of its retention
    factors [1 - 1.5 * dt]. *)
Definition elapsed (dts : list R) : R := fold_right Rplus 0 dts.

Definition retention (dts : list R) : R :=
  fold_right (fun dt acc => (1 - dt * 1.5) * acc) 1 dts.

(** The step as the specification words it, exponential smoothing with
    blend factor [1 - exp (- k * dt)], [k = 1.5]; for comparison with [step]. *)
Definition spec_step (isFormed : bool) (dt v : R) : R :=
  MathUtils.lerp v (target isFormed) (1 - exp (- (1.5 * dt))).

(** Frame-rate independence: partitions of the same elapsed time into
    positive steps integrate to the same value. *)
Definition frame_rate_independent : Prop :=
  forall (isFormed : bool) (p1 p2 : list R) (v0 : R),
    Forall (fun dt => 0 < dt) p1 -> Forall (fun dt => 0 < dt) p2 ->
    elapsed p1 = elapsed p2 ->
    integrate isFormed p1 v0 = integrate isFormed p2 v0.

(** Strictly monotone approach without overshoot: rising and below [1] when
    the target is [1], falling and above [0] when it is [0]. *)
Definition approaches (isFormed : bool) (dt v0 : R) : Prop :=
  forall n : nat,
    let a := iterate isFormed dt n v0 in
    let b := iterate isFormed dt (S n) v0 in
    if isFormed then a < b /\ b < 1 else 0 < b /\ b < a.

(** Within [0.01] of the target from some step on. *)
Definition settles (isFormed : bool) (dt v0 : R) : Prop :=
  exists N : nat, forall n : nat, (N <= n)%nat ->
    Rabs (iterate isFormed dt n v0 - target isFormed) <= 0.01.

End Progress.

(** ** The cubic ease-out, in the shader and in the item animator *)

Module Easing.

(** GLSL: [float easeOutCubic(float x) { return 1.0 - pow(1.0 - x, 3.0); }] *)
Definition easeOutCubic (x : R) : R := 1 - pow3 (1 - x).

(** FloatingItem: [const smoothT = 1 - Math.pow(1 - t, 3);] *)
Definition smoothT (t : R) : R := 1 - pow3 (1 - t).

End Easing.

(** ** HandController: the skin-pixel classifier *)

Module HandController.

Local Open Scope Z_scope.

(** [canvas.width = 100; canvas.height = 75]. *)
Definition canvas_width : Z := 100.
Definition canvas_height : Z := 75.

(** The accumulators of the pixel loop. *)
Record stats : Type := mkStats {
  xSum : Z; ySum : Z; pixelCount : Z;
  minX : Z; maxX : Z; minY : Z; maxY : Z
}.

Definition init_stats : stats :=
  {| xSum := 0; ySum := 0; pixelCount := 0;
     minX := canvas_width; maxX := 0; minY := canvas_height; maxY := 0 |}.

(** The skin threshold on one RGB triple. *)
Definition skin (r g b : Z) : bool :=
  (r >? 95) && (g >? 40) && (b >? 20) && (r >? g) && (r >? b)
  && (Z.max (Z.max r g) b - Z.min (Z.min r g) b >? 15)
  && (Z.abs (r - g) >? 15).

(** The body of the [if] for a skin pixel with pixel index [p = i / 4]. *)
Definition record_pixel (p : Z) (a : stats) : stats :=
  let x := p mod canvas_width in
  let y := p / canvas_width in
  {| xSum := xSum a + x; ySum := ySum a + y; pixelCount := pixelCount a + 1;
     minX := if x <? minX a then x else minX a;
     maxX := if x >? maxX a then x else maxX a;
     minY := if y <? minY a then y else minY a;
     maxY := if y >? maxY a then y else maxY a |}.

(** [for (let i = 0; i < length; i += 4)] over the RGBA bytes of the frame
    ([getImageData] yields four bytes per pixel). *)
Fixpoint scan (data : list Z) (p : Z) (a : stats) : stats :=
  match data with
  | r :: g :: b :: _ :: rest =>
      scan rest (p + 1) (if skin r g b then record_pixel p a else a)
  | _ => a
  end.

(** The two callbacks the controller may invoke. *)
Inductive signal : Type :=
| CameraMove (x y : R)
| UnleashChange (unleashed : bool).

(** [processFrame]: [None] stands for the early returns (no video element,
    [readyState !== 4], no 2D context); otherwise the frame's RGBA bytes.
    The result lists the callbacks in the order they are invoked. *)
Definition processFrame (frame : option (list Z)) : list signal :=
  match frame with
  | None => []
  | Some data =>
      let a := scan data 0 init_stats in
      if pixelCount a >? 200 then
        let centerX := (IZR (xSum a) / IZR (pixelCount a) / IZR canvas_width)%R in
        let centerY := (IZR (ySum a) / IZR (pixelCount a) / IZR canvas_height)%R in
        let width := maxX a - minX a in
        let height := maxY a - minY a in
        let area := width * height in
        let boxAreaPercent := (IZR area / IZR (canvas_width * canvas_height))%R in
        [ CameraMove ((centerX - 0.5) * -2)%R ((centerY - 0.5) * 2)%R;
          UnleashChange (if Rgtb boxAreaPercent 0.15 then true else false) ]
      else
        [ UnleashChange false ]
  end.

(** A frame in which every pixel is opaque black. *)
Definition black_frame : list Z :=
  List.concat
    (repeat [0; 0; 0; 255] (Z.to_nat (canvas_width * canvas_height))).

End HandController.

(** ** App: the control state and the camera rig *)

Module App.

Record pointer : Type := mkPointer { px : R; py : R }.

(** The [useState] cells of [App]. *)
Record state : Type := mkState {
  unleashed : bool;
  cameraDelta : pointer;
  greetings : list string;
  hasCameraPermission : bool;
  useMouseFallback : bool
}.

Definition initial : state :=
  {| unleashed := false; cameraDelta := {| px := 0; py := 0 |};
     greetings := []; hasCameraPermission := false; useMouseFallback := false |}.

Definition setUnleashed (b : bool) (s : state) : state :=
  {| unleashed := b; cameraDelta := cameraDelta s; greetings := greetings s;
     hasCameraPermission := hasCameraPermission s;
     useMouseFallback := useMouseFallback s |}.

Definition setCameraDelta (d : pointer) (s : state) : state :=
  {| unleashed := unleashed s; cameraDelta := d; greetings := greetings s;
     hasCameraPermission := hasCameraPermission s;
     useMouseFallback := useMouseFallback s |}.

Definition setGreetings (g : list string) (s : state) : state :=
  {| unleashed := unleashed s; cameraDelta := cameraDelta s; greetings := g;
     hasCameraPermission := hasCameraPermission s;
     useMouseFallback := useMouseFallback s |}.

Definition setHasCameraPermission (b : bool) (s : state) : state :=
  {| unleashed := unleashed s; cameraDelta := cameraDelta s;
     greetings := greetings s; hasCameraPermission := b;
     useMouseFallback := useMouseFallback s |}.

Definition setUseMouseFallback (b : bool) (s : state) : state :=
  {| unleashed := unleashed s; cameraDelta := cameraDelta s;
     greetings := greetings s; hasCameraPermission := hasCameraPermission s;
     useMouseFallback := b |}.

(** [handleMouseMove]. *)
Definition handleMouseMove (clientX clientY innerWidth innerHeight : R)
    (s : state) : state :=
  if negb (useMouseFallback s) then s
  else
    let x := clientX / innerWidth * 2 - 1 in
    let y := - (clientY / innerHeight) * 2 + 1 in
    let dist := sqrt (x * x + y * y) in
    setUnleashed (Rgtb dist 0.6)
      (setCameraDelta {| px := x; py := y |} s).

(** The props handed to [HandController]: [onUnleashChange={setUnleashed}],
    [onCameraMove={(x, y) => setCameraDelta({ x, y })}]. *)
Definition deliver (sg : HandController.signal) (s : state) : state :=
  match sg with
  | HandController.CameraMove x y => setCameraDelta {| px := x; py := y |} s
  | HandController.UnleashChange b => setUnleashed b s
  end.

(** [hasCameraPermission && !useMouseFallback && <HandController .../>]. *)
Definition handControllerMounted (s : state) : bool :=
  hasCameraPermission s && negb (useMouseFallback s).

Inductive event : Type :=
| GreetingsResolved (g : list string)
| CameraGranted
| CameraDenied
| MouseMove (clientX clientY innerWidth innerHeight : R)
| HandTick (frame : option (list Z)).

Definition step (s : state) (e : event) : state :=
  match e with
  | GreetingsResolved g => setGreetings g s
  | CameraGranted => setHasCameraPermission true s
  | CameraDenied => setUseMouseFallback true s
  | MouseMove cx cy w h => handleMouseMove cx cy w h s
  | HandTick frame =>
      if handControllerMounted s
      then fold_left (fun acc sg => deliver sg acc)
             (HandController.processFrame frame) s
      else s
  end.

Definition run (s : state) (es : list event) : state := fold_left step es s.

(** [<GrandTree isFormed={!unleashed} .../>]. *)
Definition isFormed (s : state) : bool := negb (unleashed s).

(** The target progress the tree reads off the control state. *)
Definition targetProgress (s : state) : R := Progress.target (isFormed s).

Section CameraRig.

(** The orientation three.js computes in [Object3D.lookAt] from the eye
    position, the point looked at and the up vector is left abstract. *)
Variable Quaternion : Type.
Variable lookAtQuaternion : Vector3 -> Vector3 -> Vector3 -> Quaternion.

Record camera : Type := mkCamera {
  position : Vector3;
  up : Vector3;
  quaternion : Quaternion
}.

(** [camera.lookAt(x, y, z)]: only the orientation is written. *)
Definition lookAt (tx ty tz : R) (c : camera) : camera :=
  {| position := position c; up := up c;
     quaternion := lookAtQuaternion (position c) (mkVector3 tx ty tz) (up c) |}.

(** The frame callback of [CameraRig]; [kx], [ky], [baseY] and [lookY] are
    [6, 4, 3, 5] in App.tsx and [5, 3, 2, 4] in the other copy. *)
Definition CameraRig_useFrame (kx ky baseY lookY : R) (delta : pointer)
    (dt : R) (c : camera) : camera :=
  let targetX := px delta * kx in
  let targetY := baseY + py delta * ky in
  let x' := MathUtils.lerp (vx (position c)) targetX (dt * 2) in
  let y' := MathUtils.lerp (vy (position c)) targetY (dt * 2) in
  lookAt 0 lookY 0
    {| position := {| vx := x'; vy := y'; vz := vz (position c) |};
       up := up c; quaternion := quaternion c |}.

Definition CameraRig_boundary := CameraRig_useFrame 6 4 3 5.
Definition CameraRig_plain := CameraRig_useFrame 5 3 2 4.

(** A run of frames, each with the pointer offset and frame time it sees. *)
Definition CameraRig_frames (rig : pointer -> R -> camera -> camera)
    (frames : list (pointer * R)) (c : camera) : camera :=
  fold_left (fun acc f => rig (fst f) (snd f) acc) frames c.

(** [<PerspectiveCamera makeDefault position={[0, 4, z]} />] with the default
    up vector of three.js; [z] is [24] in App.tsx and [22] in the other copy. *)
Definition initial_camera (z : R) (q0 : Quaternion) : camera :=
  {| position := mkVector3 0 4 z; up := mkVector3 0 1 0; quaternion := q0 |}.

End CameraRig.

End App.

(** ** Math.random as a stream *)

Module Random.

(** The values successive calls of [Math.random()] return; a generator reads
    the stream at a cursor and advances it. *)
Definition stream : Type := nat -> R.

Definition Gen (A : Type) : Type := stream -> nat -> A * nat.

Definition ret {A : Type} (a : A) : Gen A := fun _ k => (a, k).

Definition bind {A B : Type} (c : Gen A) (f : A -> Gen B) : Gen B :=
  fun g k => let (a, k') := c g k in f a g k'.

(** [Math.random()]. *)
Definition random : Gen R := fun g k => (g k, S k).

(** [for (let i = 0; i < n; i++) out.push(body(i))], counting up from [i]. *)
Fixpoint loop {A : Type} (n : nat) (i : nat) (body : nat -> Gen A)
    : Gen (list A) :=
  match n with
  | O => ret []
  | S m => bind (body i) (fun a =>
           bind (loop m (S i) body) (fun rest => ret (a :: rest)))
  end.

(** [Math.random()] returns a value in [[0, 1)]. *)
Definition in_unit (g : stream) : Prop := forall k, 0 <= g k < 1.

End Random.

Notation "x <- c ;; k" := (Random.bind c (fun x => k))
  (at level 61, c at next level, right associativity).

(** ** GrandTree: geometry generation, item animation and card texts *)

Module GrandTree.

Definition TREE_HEIGHT : R := 18.
Definition TREE_RADIUS : R := 7.
Definition ORNAMENT_COUNT : nat := 150.

(** One needle: three consecutive slots of [positions] / [chaosPositions]
    and one slot of [randoms]. *)
Record needle : Type := mkNeedle {
  positions : Vector3;
  chaosPositions : Vector3;
  randoms : R
}.

(** The body of the needle loop; [spread] is [30] in the polaroid copy and
    [35] in the card copy. *)
Definition gen_needle (spread : R) (i : nat) : Random.Gen needle :=
  u <- Random.random ;;
  let y := u * TREE_HEIGHT in
  let radiusAtY := (1 - y / TREE_HEIGHT) * TREE_RADIUS in
  a <- Random.random ;;
  let angle := a * PI * 2 in
  w <- Random.random ;;
  let r := w * radiusAtY in
  let x := r * cos angle in
  let z := r * sin angle in
  c1 <- Random.random ;;
  let cx := (c1 - 0.5) * spread in
  c2 <- Random.random ;;
  let cy := (c2 - 0.5) * spread in
  c3 <- Random.random ;;
  let cz := (c3 - 0.5) * spread in
  rd <- Random.random ;;
  Random.ret
    {| positions := {| vx := x; vy := y - TREE_HEIGHT / 2 + 2; vz := z |};
       chaosPositions := {| vx := cx; vy := cy; vz := cz |};
       randoms := rd |}.

(** The height at which a stored needle was generated: the stored [y] with
    the centring offset [- TREE_HEIGHT / 2 + 2] undone. *)
Definition generation_height (p : Vector3) : R := vy p + TREE_HEIGHT / 2 - 2.

(** Radial distance from the tree's axis. *)
Definition radial (p : Vector3) : R := sqrt (vx p * vx p + vz p * vz p).

(** Inside the cone: at its generation height [y] in [0, H), the needle's
    distance from the axis is at most [R * (1 - y / H)]. *)
Definition contained (nd : needle) : Prop :=
  let y := generation_height (positions nd) in
  0 <= y < TREE_HEIGHT
  /\ radial (positions nd) <= TREE_RADIUS * (1 - y / TREE_HEIGHT).

(** A discrete item: ornament, polaroid or card. *)
Record item : Type := mkItem {
  target : Vector3;
  chaos : Vector3;
  rotation : option Vector3;
  color : option string
}.

Definition chaos_vector (spread : R) : Random.Gen Vector3 :=
  c1 <- Random.random ;;
  c2 <- Random.random ;;
  c3 <- Random.random ;;
  Random.ret {| vx := (c1 - 0.5) * spread; vy := (c2 - 0.5) * spread;
                vz := (c3 - 0.5) * spread |}.

Definition on_cone (radiusAtY angle y : R) : Vector3 :=
  {| vx := radiusAtY * cos angle; vy := y - TREE_HEIGHT / 2 + 2;
     vz := radiusAtY * sin angle |}.

(** The ornament loop body; [(shrink, spread, cut, hi, lo)] is
    [(0.9, 35, 0.7, '#FF0000', '#FFD700')] in the polaroid copy and
    [(0.95, 40, 0.6, '#FFD700', '#8B0000')] in the card copy. *)
Definition gen_ornament (shrink spread cut : R) (hi lo : string) (i : nat)
    : Random.Gen item :=
  u <- Random.random ;;
  let y := u * TREE_HEIGHT in
  let radiusAtY := (1 - y / TREE_HEIGHT) * TREE_RADIUS * shrink in
  a <- Random.random ;;
  let angle := a * PI * 2 in
  c <- chaos_vector spread ;;
  k <- Random.random ;;
  Random.ret {| target := on_cone radiusAtY angle y; chaos := c;
                rotation := None;
                color := Some (if Rgtb k cut then hi else lo) |}.

Module Polaroid.

Definition PARTICLE_COUNT : nat := 6000.
Definition POLAROID_COUNT : nat := 12.

Definition gen_polaroid (i : nat) : Random.Gen item :=
  u <- Random.random ;;
  let y := u * (TREE_HEIGHT * 0.7) + 2 in
  let radiusAtY := (1 - y / TREE_HEIGHT) * TREE_RADIUS * 1.1 in
  let angle := INR i / INR POLAROID_COUNT * PI * 2 in
  let tg := on_cone radiusAtY angle y in
  c <- chaos_vector 40 ;;
  z <- Random.random ;;
  Random.ret {| target := tg; chaos := c;
                rotation := Some {| vx := 0; vy := - angle; vz := z * 0.4 - 0.2 |};
                color := None |}.

(** The [useMemo] block. *)
Definition geometry : Random.Gen (list needle * list item * list item) :=
  ns <- Random.loop PARTICLE_COUNT 0 (gen_needle 30) ;;
  os <- Random.loop ORNAMENT_COUNT 0
          (gen_ornament 0.9 35 0.7 "#FF0000" "#FFD700") ;;
  ps <- Random.loop POLAROID_COUNT 0 gen_polaroid ;;
  Random.ret (ns, os, ps).

End Polaroid.

Module Cards.

Definition PARTICLE_COUNT : nat := 4500.
Definition CARD_COUNT : nat := 16.

Definition gen_card (i : nat) : Random.Gen item :=
  let y := INR i / INR CARD_COUNT * TREE_HEIGHT * 0.7 + 2 in
  let radiusAtY := (1 - y / TREE_HEIGHT) * TREE_RADIUS * 1.2 in
  let angle := INR i * 2.4 in
  let tg := on_cone radiusAtY angle y in
  c <- chaos_vector 50 ;;
  Random.ret {| target := tg; chaos := c;
                rotation := Some {| vx := 0; vy := - angle + PI / 2; vz := 0 |};
                color := None |}.

Definition geometry : Random.Gen (list needle * list item * list item) :=
  ns <- Random.loop PARTICLE_COUNT 0 (gen_needle 35) ;;
  os <- Random.loop ORNAMENT_COUNT 0
          (gen_ornament 0.95 40 0.6 "#FFD700" "#8B0000") ;;
  cs <- Random.loop CARD_COUNT 0 gen_card ;;
  Random.ret (ns, os, cs).

End Cards.

(** *** Card texts: [greetings[i % greetings.length] || fallback] *)

(** [i % n] on non-negative integers: [NaN] ([None]) when [n] is [0]. *)
Definition js_rem (i n : nat) : option nat :=
  match n with
  | O => None
  | S _ => Some (i mod n)
  end.

(** [a[k]]: [undefined] ([None]) out of range and at [NaN]. *)
Definition js_index (a : list string) (k : option nat) : option string :=
  match k with
  | Some j => nth_error a j
  | None => None
  end.

(** [v || d] on a string or [undefined]: the empty string is falsy too. *)
Definition js_or (v : option string) (d : string) : string :=
  match v with
  | Some EmptyString => d
  | Some s => s
  | None => d
  end.

Definition card_text (fallback : string) (greetings : list string) (i : nat)
    : string :=
  js_or (js_index greetings (js_rem i (List.length greetings))) fallback.

(** [data.map((data, i) => ...)], from index [i]. *)
Fixpoint mapi {A B : Type} (f : A -> nat -> B) (i : nat) (l : list A) : list B :=
  match l with
  | [] => []
  | a :: rest => f a i :: mapi f (S i) rest
  end.

(** The texts rendered on the items of [cardData] / [polaroidData]. *)
Definition texts (fallback : string) (greetings : list string)
    (data : list item) : list string :=
  mapi (fun _ i => card_text fallback greetings i) 0%nat data.

Definition card_texts := texts "LUXURY".
Definition polaroid_texts := texts "Merry Xmas".

(** *** FloatingItem: the per-item frame callback *)

(** The position and Euler rotation of the item's group. *)
Record Object3D : Type := mkObject3D {
  obj_position : Vector3;
  obj_rotation : Vector3
}.

Definition set_position (p : Vector3) (o : Object3D) : Object3D :=
  {| obj_position := p; obj_rotation := obj_rotation o |}.

Definition set_rotation (r : Vector3) (o : Object3D) : Object3D :=
  {| obj_position := obj_position o; obj_rotation := r |}.

(** What a frame callback can read besides its props: the clock, the shared
    progress ref and the group it animates ([None] while [ref.current] is
    null); the random stream is threaded by [Random.Gen]. *)
Record world : Type := mkWorld {
  elapsedTime : R;
  progress : R;
  current : option Object3D
}.

(** Polaroid copy.  The Euler angles drawn for [qChaos] are never used. *)
Definition FloatingItem_polaroid (it : item) (w : world)
    : Random.Gen (option Object3D) :=
  match current w with
  | None => Random.ret None
  | Some o =>
      let t := progress w in
      let smoothT := Easing.smoothT t in
      let o1 := set_position (lerpVectors (chaos it) (target it) smoothT) o in
      match rotation it with
      | Some fr =>
          e1 <- Random.random ;;
          e2 <- Random.random ;;
          e3 <- Random.random ;;
          let qChaos := mkVector3 e1 e2 e3 in
          Random.ret (Some (set_rotation
            {| vx := MathUtils.lerp 1 (vx fr) smoothT;
               vy := MathUtils.lerp 1 (vy fr) smoothT;
               vz := MathUtils.lerp 1 (vz fr) smoothT |} o1))
      | None => Random.ret (Some o1)
      end
  end.

(** Card copy. *)
Definition FloatingItem_card (it : item) (w : world) : option Object3D :=
  match current w with
  | None => None
  | Some o =>
      let t := progress w in
      let smoothT := Easing.smoothT t in
      let p1 := lerpVectors (chaos it) (target it) smoothT in
      let p2 :=
        if Rgtb t 0.9
        then {| vx := vx p1;
                vy := vy p1 + sin (elapsedTime w * 2 + vx (chaos it)) * 0.002;
                vz := vz p1 |}
        else p1 in
      let o1 := set_position p2 o in
      match rotation it with
      | Some fr =>
          Some (set_rotation
            {| vx := MathUtils.lerp (vx (chaos it) * 0.1) (vx fr) smoothT;
               vy := MathUtils.lerp (vy (chaos it) * 0.1) (vy fr) smoothT;
               vz := MathUtils.lerp (vz (chaos it) * 0.1) (vz fr) smoothT |} o1)
      | None => Some o1
      end
  end.

End GrandTree.

(** ** TreeMaterials: the foliage vertex shader *)

Module TreeMaterials.

Record Vector4 : Type := mkVector4 { wx : R; wy : R; wz : R; ww : R }.

Record Matrix4 : Type := mkMatrix4 {
  row1 : Vector4; row2 : Vector4; row3 : Vector4; row4 : Vector4
}.

Definition dot4 (a b : Vector4) : R :=
  wx a * wx b + wy a * wy b + wz a * wz b + ww a * ww b.

(** GLSL [m * v]. *)
Definition transform (m : Matrix4) (v : Vector4) : Vector4 :=
  {| wx := dot4 (row1 m) v; wy := dot4 (row2 m) v;
     wz := dot4 (row3 m) v; ww := dot4 (row4 m) v |}.

Definition identity4 : Matrix4 :=
  {| row1 := mkVector4 1 0 0 0; row2 := mkVector4 0 1 0 0;
     row3 := mkVector4 0 0 1 0; row4 := mkVector4 0 0 0 1 |}.

(** GLSL [mix(x, y, a)] is [x * (1 - a) + y * a]. *)
Definition mix (x y a : R) : R := x * (1 - a) + y * a.

Definition mix3 (x y : Vector3) (a : R) : Vector3 :=
  {| vx := mix (vx x) (vx y) a; vy := mix (vy x) (vy y) a;
     vz := mix (vz x) (vz y) a |}.

Record attributes : Type := mkAttributes {
  aChaosPos : Vector3;
  aTargetPos : Vector3;
  aRandom : R
}.

Record shader_uniforms : Type := mkShaderUniforms {
  uProgress : R;
  uTime : R;
  modelViewMatrix : Matrix4;
  projectionMatrix : Matrix4
}.

Record vertex : Type := mkVertex {
  gl_Position : Vector4;
  gl_PointSize : R;
  vRandom : R;
  vDepth : R
}.

(** [mvPosition]: the blended position in view space (same in both copies). *)
Definition mvPosition (u : shader_uniforms) (a : attributes) : Vector4 :=
  let t := Easing.easeOutCubic (uProgress u) in
  let c := aChaosPos a in
  let chaosOffset :=
    {| vx := sin (uTime u * 0.5 + vy c) * 0.5 * (1 - t);
       vy := cos (uTime u * 0.3 + vx c) * 0.5 * (1 - t);
       vz := sin (uTime u * 0.7 + vz c) * 0.5 * (1 - t) |} in
  let pos :=
    mix3 {| vx := vx c + vx chaosOffset; vy := vy c + vy chaosOffset;
            vz := vz c + vz chaosOffset |} (aTargetPos a) t in
  transform (modelViewMatrix u) (mkVector4 (vx pos) (vy pos) (vz pos) 1).

(** The copy with the safety clamp. *)
Definition main_clamped (u : shader_uniforms) (a : attributes) : vertex :=
  let t := Easing.easeOutCubic (uProgress u) in
  let mv := mvPosition u a in
  let size0 := (6 * aRandom a + 5) * (1 / - wz mv) in
  let size1 := size0 * (0.5 + 0.6 * t) in
  let size2 := if Rlt_dec size1 2 then 2 else size1 in
  {| gl_Position := transform (projectionMatrix u) mv;
     gl_PointSize := size2; vRandom := aRandom a; vDepth := - wz mv |}.

(** The copy without it. *)
Definition main_unclamped (u : shader_uniforms) (a : attributes) : vertex :=
  let t := Easing.easeOutCubic (uProgress u) in
  let mv := mvPosition u a in
  let size0 := (6 * aRandom a + 4) * (1 / - wz mv) in
  let size1 := size0 * (0.5 + 0.5 * t) in
  {| gl_Position := transform (projectionMatrix u) mv;
     gl_PointSize := size1; vRandom := aRandom a; vDepth := - wz mv |}.

End TreeMaterials.

(** ** geminiService: the greeting provider *)

Module GeminiService.

(** How [await ai.models.generateContent(...)] ends: it throws (request
    error, time-out of the transport), or it yields a response whose [text]
    may be [undefined]. *)
Inductive outcome : Type :=
| Rejected
| Resolved (text : option string).

(** [!text]: [undefined] and the empty string are falsy. *)
Definition no_text (text : option string) : bool :=
  match text with
  | None => true
  | Some EmptyString => true
  | Some _ => false
  end.

Definition defaults : list string :=
  [ "GOLDEN ERA"; "PURE LUXURY"; "WINNING SEASON"; "GRAND CHRISTMAS";
    "RICH & MERRY"; "SUCCESS 2025" ]%string.

Definition no_key_greetings : list string :=
  [ "Merry Christmas"; "Golden Holidays"; "Luxury Awaits";
    "Grand Celebration"; "Prosperity & Joy" ]%string.

Definition no_text_greetings : list string := [ "Seasons Greetings"%string ].

Definition error_greetings : list string :=
  [ "Merry Christmas"; "Pure Luxury"; "Golden Season"; "Grand Joy" ]%string.

Section Provider.

(** [JSON.parse(text) as string[]]: [None] when it throws.  The response
    schema asks for an array of strings. *)
Variable JSON_parse : string -> option (list string).

Definition text_of (text : option string) : string :=
  match text with
  | Some s => s
  | None => EmptyString
  end.

(** The copy with one [defaults] list; the value the promise resolves to. *)
Definition generateLuxuryGreetings_defaults (API_KEY : string) (o : outcome)
    : list string :=
  match API_KEY with
  | EmptyString => defaults
  | _ =>
      match o with
      | Rejected => defaults
      | Resolved text =>
          if no_text text then defaults
          else
            match JSON_parse (text_of text) with
            | None => defaults
            | Some result =>
                if (0 <? List.length result)%nat then result else defaults
            end
      end
  end.

(** The copy with a literal list per failure. *)
Definition generateLuxuryGreetings_literals (API_KEY : string) (o : outcome)
    : list string :=
  match API_KEY with
  | EmptyString => no_key_greetings
  | _ =>
      match o with
      | Rejected => error_greetings
      | Resolved text =>
          if no_text text then no_text_greetings
          else
            match JSON_parse (text_of text) with
            | None => error_greetings
            | Some result => result
            end
      end
  end.

End Provider.

(** The failures of the provider path: no API key, a request that throws or
    times out, a response without text. *)
Definition failed (API_KEY : string) (o : outcome) : Prop :=
  API_KEY = EmptyString \/ o = Rejected
  \/ exists text, o = Resolved text /\ no_text text = true.

End GeminiService.

(** ** Runs of frames, well-formed inputs and the fragment shaders *)

Module Scene.

(** One call of the tree's frame callback: the [isFormed] prop it closes
    over, the clock reading and the frame time. *)
Record tick : Type := mkTick {
  tick_formed : bool;
  tick_clock : R;
  tick_delta : R
}.

Definition tree_frames (spin : R) (ticks : list tick)
    (s : Progress.tree_state) : Progress.tree_state :=
  fold_left
    (fun acc k =>
       Progress.useFrame spin (tick_formed k) (tick_clock k) (tick_delta k) acc)
    ticks s.

(** [useRef(0)], the shader's default uniforms and an unrotated group. *)
Definition initial_tree : Progress.tree_state :=
  {| Progress.currentProgress := 0;
     Progress.material :=
       Some {| Progress.uTime := 0; Progress.uProgress := 0 |};
     Progress.group_rotation_y := Some 0 |}.

(** The frame time a run of ticks adds up to. *)
Definition total_delta (ticks : list tick) : R :=
  fold_right (fun k acc => tick_delta k + acc) 0 ticks.

(** Frame times for which the blend factor [delta * 1.5] is in [0, 1]. *)
Definition tame (k : tick) : Prop := 0 <= tick_delta k /\ tick_delta k * 1.5 <= 1.

(** What [getImageData(0, 0, 100, 75)] returns: four bytes per pixel. *)
Definition canvas_frame (data : list Z) : Prop :=
  List.length data
  = Z.to_nat (4 * HandController.canvas_width * HandController.canvas_height).

(** A frame in which every pixel has the skin colour (200, 100, 50). *)
Definition skin_frame : list Z :=
  List.concat
    (repeat [200; 100; 50; 255]%Z
       (Z.to_nat (HandController.canvas_width * HandController.canvas_height))).

(** A pointer event inside a window of positive size. *)
Definition in_window (clientX clientY innerWidth innerHeight : R) : Prop :=
  0 < innerWidth /\ 0 < innerHeight
  /\ 0 <= clientX <= innerWidth /\ 0 <= clientY <= innerHeight.

Definition wellformed (e : App.event) : Prop :=
  match e with
  | App.MouseMove cx cy w h => in_window cx cy w h
  | App.HandTick (Some data) => canvas_frame data
  | _ => True
  end.

(** A pointer offset with both components in [-1, 1]. *)
Definition unit_pointer (d : App.pointer) : Prop :=
  -1 <= App.px d <= 1 /\ -1 <= App.py d <= 1.

(** The accumulators of the pixel loop after a number of pixels, all in rows
    up to [rows]: nothing seen yet, or a bounding box inside the canvas with
    sums bounded by the count. *)
Definition stats_ok (rows : Z) (a : HandController.stats) : Prop :=
  (HandController.pixelCount a = 0
   /\ HandController.xSum a = 0 /\ HandController.ySum a = 0
   /\ HandController.minX a = HandController.canvas_width
   /\ HandController.maxX a = 0
   /\ HandController.minY a = HandController.canvas_height
   /\ HandController.maxY a = 0)%Z
  \/ (0 < HandController.pixelCount a
      /\ 0 <= HandController.minX a <= HandController.maxX a
      /\ HandController.maxX a <= 99
      /\ 0 <= HandController.minY a <= HandController.maxY a
      /\ HandController.maxY a <= rows
      /\ 0 <= HandController.xSum a <= 99 * HandController.pixelCount a
      /\ 0 <= HandController.ySum a <= rows * HandController.pixelCount a)%Z.

(** The rounding a [Float32Array] applies when a number is stored in it:
    non-decreasing, and exact on the listed values (the bounds used below
    are binary32 numbers). *)
Definition store_rounding (fround : R -> R) (exact : list R) : Prop :=
  (forall x y, x <= y -> fround x <= fround y)
  /\ Forall (fun b => fround b = b) exact.

(** A needle as its three arrays hold it: dispersed in the closed cube of
    half side [half], with its phase in [0, 1] and its height in [-7, 11]. *)
Definition stored_in_cube (fround : R -> R) (half : R)
    (nd : GrandTree.needle) : Prop :=
  (- half <= fround (vx (GrandTree.chaosPositions nd)) <= half
   /\ - half <= fround (vy (GrandTree.chaosPositions nd)) <= half
   /\ - half <= fround (vz (GrandTree.chaosPositions nd)) <= half)
  /\ 0 <= fround (GrandTree.randoms nd) <= 1
  /\ -7 <= fround (vy (GrandTree.positions nd)) <= 11.

(** The camera rig's frame times for which [dt * 2] is in [0, 1]. *)
Definition rig_tame (f : App.pointer * R) : Prop :=
  unit_pointer (fst f) /\ 0 <= snd f /\ snd f * 2 <= 1.

(** The box the pointer targets of a rig span. *)
Definition in_parallax_box (kx ky baseY : R) (p : Vector3) : Prop :=
  - kx <= vx p <= kx /\ baseY - ky <= vy p <= baseY + ky.

End Scene.

Module Fragment.

Record Vector2 : Type := mkVector2 { ux : R; uy : R }.

(** GLSL [length] and [distance] on [vec2]. *)
Definition length2 (v : Vector2) : R := sqrt (ux v * ux v + uy v * uy v).

Definition distance2 (a b : Vector2) : R :=
  length2 {| ux := ux a - ux b; uy := uy a - uy b |}.

Record colors : Type := mkColors { uColorBase : Vector3; uColorTip : Vector3 }.

Definition plus_scalar (c : Vector3) (k : R) : Vector3 :=
  {| vx := vx c + k; vy := vy c + k; vz := vz c + k |}.

(** The fragment shader next to the clamped vertex shader; [None] is
    [discard], otherwise the RGB part of [gl_FragColor] (alpha is [1.0]). *)
Definition main_sparkle (u : colors) (vRandom : R) (gl_PointCoord : Vector2)
    : option Vector3 :=
  let coord := {| ux := ux gl_PointCoord - 0.5; uy := uy gl_PointCoord - 0.5 |} in
  if Rgtb (length2 coord) 0.5 then None
  else
    let strength := distance2 gl_PointCoord (mkVector2 0.5 0.5) in
    let finalColor :=
      TreeMaterials.mix3 (uColorBase u) (uColorTip u) (vRandom * 0.5) in
    Some (if Rlt_dec strength 0.15 then plus_scalar finalColor 0.6
          else finalColor).

(** The fragment shader next to the unclamped vertex shader. *)
Definition main_highlight (u : colors) (vRandom : R) (gl_PointCoord : Vector2)
    : option Vector3 :=
  let coord := {| ux := ux gl_PointCoord - 0.5; uy := uy gl_PointCoord - 0.5 |} in
  if Rgtb (length2 coord) 0.5 then None
  else
    let strength := distance2 gl_PointCoord (mkVector2 0.5 0.5) in
    let finalColor :=
      TreeMaterials.mix3 (uColorBase u) (uColorTip u) (vRandom * 0.4) in
    Some (plus_scalar finalColor (0.2 * (1 - strength * 2))).

End Fragment.

(** * Properties *)

(** ** The progress integrator *)

Section ProgressFacts.

Import Progress.

Lemma lerp_distance (x y t : R) :
  MathUtils.lerp x y t - y = (1 - t) * (x - y).
Proof. unfold MathUtils.lerp. ring. Qed.

Lemma step_distance (isFormed : bool) (dt v : R) :
  step isFormed dt v - target isFormed = (1 - dt * 1.5) * (v - target isFormed).
Proof. unfold step. apply lerp_distance. Qed.

Lemma useFrame_progress (spin : R) (isFormed : bool) (now delta : R)
    (s : tree_state) :
  currentProgress (useFrame spin isFormed now delta s)
  = step isFormed delta (currentProgress s).
Proof. reflexivity. Qed.

Lemma integrate_distance (isFormed : bool) (dts : list R) :
  forall v0,
    integrate isFormed dts v0 - target isFormed
    = retention dts * (v0 - target isFormed).
Proof.
  unfold integrate.
  induction dts as [|dt dts IH]; intro v0; simpl.
  - ring.
  - rewrite IH, step_distance. ring.
Qed.

Lemma iterate_distance (isFormed : bool) (dt : R) (n : nat) (v0 : R) :
  iterate isFormed dt n v0 - target isFormed
  = (1 - dt * 1.5) ^ n * (v0 - target isFormed).
Proof.
  induction n as [|n IH]; simpl.
  - ring.
  - rewrite step_distance, IH. ring.
Qed.

Lemma retention_perm (p1 p2 : list R) :
  Permutation p1 p2 -> retention p1 = retention p2.
Proof.
  induction 1 as [| x l l' _ IH | x y l | l l' l'' _ IH1 _ IH2]; simpl.
  - reflexivity.
  - now rewrite IH.
  - ring.
  - now rewrite IH1.
Qed.

(** C2, as stated, fails: one frame of 0.2 s and two frames of 0.1 s cover
    the same elapsed time and integrate to 0.3 and 0.2775; and the blend
    factor of the code at 0.2 s, 0.3, is not [1 - exp (-0.3)]. *)
Lemma frame_rate_dependence :
  ~ frame_rate_independent
  /\ step true 0.2 0 <> spec_step true 0.2 0.
Proof.
  split.
  - intro H.
    specialize (H true [0.2] [0.1; 0.1] 0).
    assert (E : integrate true [0.2] 0 = integrate true [0.1; 0.1] 0).
    { apply H.
      - repeat constructor; lra.
      - repeat constructor; lra.
      - simpl; lra. }
    unfold integrate, step, MathUtils.lerp in E; simpl in E. lra.
  - unfold step, spec_step, MathUtils.lerp; simpl.
    assert (E := exp_ineq1 (- (1.5 * 0.2))).
    assert (1 + - (1.5 * 0.2) < exp (- (1.5 * 0.2))) by (apply E; lra).
    lra.
Qed.

(** C2, amended: a frame update is the linear interpolation
    [value <- (1 - 1.5 dt) * value + 1.5 dt * target], and after the frames
    [dt_1 .. dt_n] under a constant target the value is
    [target + (v0 - target) * prod (1 - 1.5 dt_i)]: it depends on the
    partition through that product, which reordering the frames preserves. *)
Theorem progress_linear_blend (isFormed : bool) (dts : list R) (v0 : R) :
  (forall spin now delta s,
      currentProgress (useFrame spin isFormed now delta s)
      = (1 - 1.5 * delta) * currentProgress s + 1.5 * delta * target isFormed)
  /\ integrate isFormed dts v0
     = target isFormed + retention dts * (v0 - target isFormed).
Proof.
  split.
  - intros. simpl. unfold MathUtils.lerp. ring.
  - pose proof (integrate_distance isFormed dts v0). lra.
Qed.

Lemma integrate_perm (isFormed : bool) (p1 p2 : list R) (v0 : R) :
  Permutation p1 p2 -> integrate isFormed p1 v0 = integrate isFormed p2 v0.
Proof.
  intro P.
  pose proof (integrate_distance isFormed p1 v0).
  pose proof (integrate_distance isFormed p2 v0).
  rewrite (retention_perm _ _ P) in *. lra.
Qed.

(** C3, as stated, fails: with a frame time of one second the first step
    from 0 toward 1 lands on 1.5. *)
Lemma progress_overshoot :
  ~ (forall (isFormed : bool) (dt v0 : R),
       0 < dt -> 0 <= v0 <= 1 -> v0 <> target isFormed ->
       approaches isFormed dt v0 /\ settles isFormed dt v0).
Proof.
  intro H.
  destruct (H true 1 0) as [A _]; [lra | lra | simpl; lra |].
  specialize (A 0%nat). simpl in A.
  unfold step, MathUtils.lerp in A; simpl in A. lra.
Qed.

Lemma retention_factor_pow (dt : R) (n : nat) :
  0 < dt -> dt * 1.5 < 1 -> 0 < (1 - dt * 1.5) ^ n <= 1.
Proof.
  intros H0 H1. split.
  - apply pow_lt. lra.
  - pose proof (pow_incr (1 - dt * 1.5) 1 n) as P.
    rewrite pow1 in P. apply P. lra.
Qed.

(** C3, amended: for a constant target in {0, 1}, a fixed frame time with
    [0 < 1.5 dt < 1] and a start in [0, 1] other than the target, the values
    are strictly monotone, never reach or pass the target, and stay within
    0.01 of it from some step on. *)
Theorem progress_monotone_convergence (isFormed : bool) (dt v0 : R) :
  0 < dt -> dt * 1.5 < 1 -> 0 <= v0 <= 1 -> v0 <> target isFormed ->
  approaches isFormed dt v0 /\ settles isFormed dt v0.
Proof.
  intros Hdt Hk Hv Hne. split.
  - intro n. cbv zeta.
    pose proof (iterate_distance isFormed dt n v0) as Dn.
    pose proof (iterate_distance isFormed dt (S n) v0) as Ds.
    pose proof (retention_factor_pow dt n Hdt Hk) as [Qp _].
    simpl pow in Ds.
    set (q := (1 - dt * 1.5) ^ n) in *.
    destruct isFormed; simpl target in *.
    + assert (0 < q * (1 - v0)) by (apply Rmult_lt_0_compat; lra).
      assert (0 < dt * 1.5 * (q * (1 - v0))) by (apply Rmult_lt_0_compat; lra).
      split; nra.
    + assert (0 < q * v0) by (apply Rmult_lt_0_compat; lra).
      assert (0 < dt * 1.5 * (q * v0)) by (apply Rmult_lt_0_compat; lra).
      split; nra.
  - destruct (pow_lt_1_zero (1 - dt * 1.5)) with (y := 0.01) as [N HN].
    + apply Rabs_def1; lra.
    + lra.
    + exists N. intros n Hn.
      rewrite iterate_distance, Rabs_mult.
      assert (Rabs (v0 - target isFormed) <= 1).
      { destruct isFormed; simpl; apply Rabs_le; lra. }
      specialize (HN n Hn).
      pose proof (Rabs_pos ((1 - dt * 1.5) ^ n)).
      pose proof (Rabs_pos (v0 - target isFormed)).
      nra.
Qed.

Lemma exp_scaled_pow (x : R) (n : nat) : exp x ^ n = exp (INR n * x).
Proof.
  induction n as [|n IH].
  - simpl. now rewrite Rmult_0_l, exp_0.
  - rewrite S_INR. simpl pow. rewrite IH, <- exp_plus. f_equal. ring.
Qed.

(** X13: an explicit bound on the number of steps: the value is within 0.01 of the
    target at every step [n] with [n * 1.5 * dt >= ln 100]. *)
Lemma settles_after (isFormed : bool) (dt v0 : R) (n : nat) :
  0 < dt -> dt * 1.5 < 1 -> 0 <= v0 <= 1 ->
  ln 100 <= INR n * (dt * 1.5) ->
  Rabs (iterate isFormed dt n v0 - target isFormed) <= 0.01.
Proof.
  intros Hdt Hk Hv Hn.
  rewrite iterate_distance, Rabs_mult.
  pose proof (retention_factor_pow dt n Hdt Hk) as [Qp _].
  rewrite (Rabs_pos_eq ((1 - dt * 1.5) ^ n)) by lra.
  assert (B : (1 - dt * 1.5) ^ n <= 0.01).
  { apply Rle_trans with (exp (- (dt * 1.5)) ^ n).
    - apply pow_incr. split; [lra|].
      pose proof (exp_ineq1_le (- (dt * 1.5))). lra.
    - rewrite exp_scaled_pow.
      apply Rle_trans with (exp (- ln 100)).
      + destruct (Rle_lt_or_eq_dec _ _ Hn) as [L|E].
        * left. apply exp_increasing. nra.
        * right. f_equal. rewrite E. ring.
      + rewrite exp_Ropp, exp_ln by lra. lra. }
  assert (Rabs (v0 - target isFormed) <= 1).
  { destruct isFormed; simpl; apply Rabs_le; lra. }
  pose proof (Rabs_pos (v0 - target isFormed)).
  nra.
Qed.

Lemma progress_monotone_convergence_witness :
  approaches true 0.1 0 /\ settles true 0.1 0.
Proof.
  apply (progress_monotone_convergence true 0.1 0); simpl; lra.
Defined.

End ProgressFacts.

(** ** The cubic ease-out *)

(** C9: the ease-out of the shader and of the item animator are the same
    map, it sends 0 to 0 and 1 to 1, and it is non-decreasing on [0, 1]. *)
Theorem ease_out_boundary_monotone :
  Easing.easeOutCubic 0 = 0 /\ Easing.easeOutCubic 1 = 1
  /\ (forall t, Easing.smoothT t = Easing.easeOutCubic t)
  /\ (forall x y, 0 <= x -> x <= y -> y <= 1 ->
        Easing.easeOutCubic x <= Easing.easeOutCubic y).
Proof.
  unfold Easing.easeOutCubic, Easing.smoothT, pow3.
  repeat split.
  - simpl. lra.
  - simpl. lra.
  - intros x y Hx Hxy Hy.
    assert ((1 - y) ^ 3 <= (1 - x) ^ 3) by (apply pow_incr; lra).
    lra.
Qed.

Lemma ease_out_boundary_monotone_witness :
  Easing.easeOutCubic (1 / 4) <= Easing.easeOutCubic (1 / 2).
Proof.
  apply (proj2 (proj2 (proj2 ease_out_boundary_monotone))); lra.
Defined.

(** ** The control signal when no hand is seen or the camera is refused *)

Section SignalFacts.

Import HandController.

Lemma processFrame_no_hand (data : list Z) :
  (pixelCount (scan data 0 init_stats) <= 200)%Z ->
  processFrame (Some data) = [UnleashChange false].
Proof.
  intro H. unfold processFrame.
  destruct (Z.gtb_spec (pixelCount (scan data 0 init_stats)) 200) as [G|G].
  - lia.
  - reflexivity.
Qed.

Lemma black_frame_count : pixelCount (scan black_frame 0 init_stats) = 0%Z.
Proof. vm_compute. reflexivity. Qed.

Lemma granted_mounts :
  App.handControllerMounted (App.step App.initial App.CameraGranted) = true.
Proof. reflexivity. Qed.

(** C1, as stated, fails: a black frame has no skin pixel, and the sample the
    controller then delivers leaves the target progress at 1, not 0; the same
    holds after the camera is refused. *)
Lemma no_signal_target_is_not_zero :
  ~ (forall (s : App.state) (data : list Z),
       App.handControllerMounted s = true ->
       (pixelCount (scan data 0 init_stats) <= 200)%Z ->
       App.targetProgress (App.step s (App.HandTick (Some data))) = 0)
  /\ App.targetProgress (App.step App.initial App.CameraDenied) <> 0.
Proof.
  split.
  - intro H.
    specialize (H (App.step App.initial App.CameraGranted) black_frame
                  granted_mounts).
    rewrite black_frame_count in H.
    assert (Hle : (0 <= 200)%Z) by lia.
    specialize (H Hle).
    unfold App.step at 1 in H.
    rewrite granted_mounts, processFrame_no_hand in H
      by (rewrite black_frame_count; lia).
    unfold App.targetProgress in H. simpl in H. lra.
  - unfold App.targetProgress. simpl. lra.
Qed.

(** C1, amended: when the skin-pixel count of a frame is at or below the
    noise threshold of 200, the controller delivers [unleashed = false], so
    [isFormed] is true and the target progress is 1; refusing the camera
    leaves the control state's [unleashed] as it is, which from the initial
    state means formed, target progress 1. *)
Theorem no_signal_defaults_to_formed :
  (forall (s : App.state) (data : list Z),
      App.handControllerMounted s = true ->
      (pixelCount (scan data 0 init_stats) <= 200)%Z ->
      let s' := App.step s (App.HandTick (Some data)) in
      App.unleashed s' = false /\ App.isFormed s' = true
      /\ App.targetProgress s' = 1)
  /\ (forall s : App.state,
        App.unleashed (App.step s App.CameraDenied) = App.unleashed s)
  /\ App.targetProgress (App.step App.initial App.CameraDenied) = 1.
Proof.
  split; [|split].
  - intros s data M H. cbv zeta.
    unfold App.step. rewrite M, (processFrame_no_hand data H).
    unfold App.targetProgress, App.isFormed. simpl. auto.
  - intro s. reflexivity.
  - reflexivity.
Qed.

Lemma no_signal_defaults_to_formed_witness :
  App.targetProgress
    (App.step (App.step App.initial App.CameraGranted)
       (App.HandTick (Some black_frame))) = 1.
Proof.
  apply (proj1 no_signal_defaults_to_formed
           (App.step App.initial App.CameraGranted) black_frame).
  - reflexivity.
  - rewrite black_frame_count. lia.
Defined.

End SignalFacts.

(** ** The camera rig *)

Section CameraFacts.

Variable Quaternion : Type.
Variable lookAtQuaternion : Vector3 -> Vector3 -> Vector3 -> Quaternion.

Local Abbreviation camera := (App.camera Quaternion).
Local Abbreviation useFrame := (App.CameraRig_useFrame Quaternion lookAtQuaternion).
Local Abbreviation frames := (App.CameraRig_frames Quaternion).

Lemma rig_frame_effect (kx ky baseY lookY : R) (delta : App.pointer) (dt : R)
    (c : camera) :
  let c' := useFrame kx ky baseY lookY delta dt c in
  vz (App.position _ c') = vz (App.position _ c)
  /\ App.up _ c' = App.up _ c
  /\ vx (App.position _ c')
     = MathUtils.lerp (vx (App.position _ c)) (App.px delta * kx) (dt * 2)
  /\ vy (App.position _ c')
     = MathUtils.lerp (vy (App.position _ c)) (baseY + App.py delta * ky) (dt * 2)
  /\ App.quaternion _ c'
     = lookAtQuaternion (App.position _ c') (mkVector3 0 lookY 0) (App.up _ c).
Proof. cbv zeta. unfold App.CameraRig_useFrame, App.lookAt. simpl. auto. Qed.

Lemma rig_frames_depth (kx ky baseY lookY : R)
    (fs : list (App.pointer * R)) :
  forall c : camera,
    let c' := frames (useFrame kx ky baseY lookY) fs c in
    vz (App.position _ c') = vz (App.position _ c)
    /\ App.up _ c' = App.up _ c.
Proof.
  unfold App.CameraRig_frames.
  induction fs as [|f fs IH]; intro c; simpl.
  - auto.
  - destruct (IH (useFrame kx ky baseY lookY (fst f) (snd f) c)) as [Hz Hu].
    destruct (rig_frame_effect kx ky baseY lookY (fst f) (snd f) c)
      as (Hz' & Hu' & _).
    cbv zeta in *. split; congruence.
Qed.

(** C10: a frame of the camera rig, in either copy, writes the x and y
    position (each a lerp toward the pointer target) and the orientation
    (re-aimed at the look-at point); the z position and the up vector are
    untouched, so after any run of frames z is still the initial 24
    (App.tsx) or 22 (other copy). *)
Theorem camera_rig_keeps_depth :
  (forall (delta : App.pointer) (dt : R) (c : camera),
      let a := App.CameraRig_boundary _ lookAtQuaternion delta dt c in
      let b := App.CameraRig_plain _ lookAtQuaternion delta dt c in
      vz (App.position _ a) = vz (App.position _ c)
      /\ vz (App.position _ b) = vz (App.position _ c)
      /\ App.up _ a = App.up _ c /\ App.up _ b = App.up _ c
      /\ App.quaternion _ a
         = lookAtQuaternion (App.position _ a) (mkVector3 0 5 0) (App.up _ c)
      /\ App.quaternion _ b
         = lookAtQuaternion (App.position _ b) (mkVector3 0 4 0) (App.up _ c))
  /\ (forall (fs : list (App.pointer * R)) (q0 : Quaternion),
        vz (App.position _
              (frames (App.CameraRig_boundary _ lookAtQuaternion) fs
                 (App.initial_camera _ 24 q0))) = 24
        /\ vz (App.position _
                 (frames (App.CameraRig_plain _ lookAtQuaternion) fs
                    (App.initial_camera _ 22 q0))) = 22).
Proof.
  split.
  - intros delta dt c. cbv zeta.
    unfold App.CameraRig_boundary, App.CameraRig_plain,
      App.CameraRig_useFrame, App.lookAt.
    simpl. repeat split.
  - intros fs q0. unfold App.CameraRig_boundary, App.CameraRig_plain. split.
    + apply (rig_frames_depth 6 4 3 5 fs (App.initial_camera _ 24 q0)).
    + apply (rig_frames_depth 5 3 2 4 fs (App.initial_camera _ 22 q0)).
Qed.

End CameraFacts.

(** ** Containment of the needles in the cone *)

Section GeometryFacts.

Import GrandTree.

(** Whatever every loop body produces holds of every element of the list. *)
Lemma loop_Forall {A : Type} (P : A -> Prop) (body : nat -> Random.Gen A)
    (g : Random.stream) :
  (forall i k, P (fst (body i g k))) ->
  forall n i k, Forall P (fst (Random.loop n i body g k)).
Proof.
  intros HP n. induction n as [|n IH]; intros i k; simpl.
  - constructor.
  - unfold Random.bind, Random.ret.
    specialize (HP i k).
    destruct (body i g k) as [a k1].
    specialize (IH (S i) k1).
    destruct (Random.loop n (S i) body g k1) as [rest k2].
    simpl in *. constructor; assumption.
Qed.

Lemma loop_length {A : Type} (body : nat -> Random.Gen A) (g : Random.stream) :
  forall n i k, List.length (fst (Random.loop n i body g k)) = n.
Proof.
  induction n as [|n IH]; intros i k; simpl.
  - reflexivity.
  - unfold Random.bind, Random.ret.
    destruct (body i g k) as [a k1].
    specialize (IH (S i) k1).
    destruct (Random.loop n (S i) body g k1) as [rest k2].
    simpl in *. now rewrite IH.
Qed.

Lemma radial_polar (r a y : R) :
  0 <= r -> radial {| vx := r * cos a; vy := y; vz := r * sin a |} = r.
Proof.
  intro Hr. unfold radial; simpl.
  replace (r * cos a * (r * cos a) + r * sin a * (r * sin a))
    with (r * r * ((sin a)² + (cos a)²)) by (unfold Rsqr; ring).
  rewrite sin2_cos2, Rmult_1_r. now apply sqrt_square.
Qed.

Lemma gen_needle_contained (spread : R) (g : Random.stream) :
  Random.in_unit g ->
  forall i k, contained (fst (gen_needle spread i g k)).
Proof.
  intros U i k.
  unfold gen_needle, Random.bind, Random.random, Random.ret, contained.
  simpl. unfold generation_height; simpl.
  pose proof (U k) as Hu. pose proof (U (S (S k))) as Hw.
  unfold TREE_HEIGHT, TREE_RADIUS in *.
  rewrite radial_polar.
  - split; [lra|]. nra.
  - apply Rmult_le_pos; lra.
Qed.

Lemma loop_head {A : Type} (body : nat -> Random.Gen A) (g : Random.stream)
    (n i k : nat) :
  (0 < n)%nat -> In (fst (body i g k)) (fst (Random.loop n i body g k)).
Proof.
  destruct n as [|n]; [lia|]. intros _. simpl.
  unfold Random.bind, Random.ret.
  destruct (body i g k) as [a k1].
  destruct (Random.loop n (S i) body g k1) as [rest k2].
  simpl. now left.
Qed.

Lemma polaroid_geometry_needles (g : Random.stream) (k : nat) :
  fst (fst (fst (Polaroid.geometry g k)))
  = fst (Random.loop Polaroid.PARTICLE_COUNT 0 (gen_needle 30) g k).
Proof.
  unfold Polaroid.geometry, Random.bind, Random.ret.
  destruct (Random.loop Polaroid.PARTICLE_COUNT 0 (gen_needle 30) g k)
    as [ns k1].
  destruct (Random.loop ORNAMENT_COUNT 0 _ g k1) as [os k2].
  destruct (Random.loop Polaroid.POLAROID_COUNT 0 _ g k2) as [ps k3].
  reflexivity.
Qed.

Lemma cards_geometry_needles (g : Random.stream) (k : nat) :
  fst (fst (fst (Cards.geometry g k)))
  = fst (Random.loop Cards.PARTICLE_COUNT 0 (gen_needle 35) g k).
Proof.
  unfold Cards.geometry, Random.bind, Random.ret.
  destruct (Random.loop Cards.PARTICLE_COUNT 0 (gen_needle 35) g k)
    as [ns k1].
  destruct (Random.loop ORNAMENT_COUNT 0 _ g k1) as [os k2].
  destruct (Random.loop Cards.CARD_COUNT 0 _ g k2) as [cs k3].
  reflexivity.
Qed.

(** C6: every needle the geometry block generates, in either copy, lies in
    the cone of height 18 and base radius 7: at its generation height [y]
    its distance from the axis is at most [7 * (1 - y / 18)]. *)
Theorem needles_contained (g : Random.stream) (k : nat) (nd : needle) :
  Random.in_unit g ->
  In nd (fst (fst (fst (Polaroid.geometry g k))))
  \/ In nd (fst (fst (fst (Cards.geometry g k)))) ->
  let y := generation_height (positions nd) in
  0 <= y < 18 /\ radial (positions nd) <= 7 * (1 - y / 18).
Proof.
  intros U H.
  change (contained nd).
  rewrite polaroid_geometry_needles, cards_geometry_needles in H.
  destruct H as [H|H];
    (eapply Forall_forall; [apply loop_Forall | exact H]);
    apply gen_needle_contained; exact U.
Qed.

Lemma needles_contained_witness :
  let nd := fst (gen_needle 30 0%nat (fun _ => 0) 0%nat) in
  radial (positions nd) <= 7 * (1 - generation_height (positions nd) / 18).
Proof.
  apply (needles_contained (fun _ => 0) 0%nat).
  - intro k. lra.
  - left. rewrite polaroid_geometry_needles. apply loop_head.
    apply Nat.ltb_lt. vm_compute. reflexivity.
Defined.

End GeometryFacts.

(** ** The text bound to each card *)

Section CardTextFacts.

Import GrandTree.

Lemma mapi_nth {A B : Type} (f : A -> nat -> B) (l : list A) :
  forall j i,
    nth_error (mapi f j l) i
    = option_map (fun a => f a (j + i)%nat) (nth_error l i).
Proof.
  induction l as [|a l IH]; intros j i.
  - destruct i; reflexivity.
  - destruct i as [|i]; simpl.
    + now rewrite Nat.add_0_r.
    + rewrite IH. now rewrite Nat.add_succ_r.
Qed.

Lemma texts_nth (fallback : string) (greetings : list string)
    (data : list item) (i : nat) :
  (i < List.length data)%nat ->
  nth_error (texts fallback greetings data) i
  = Some (card_text fallback greetings i).
Proof.
  intro H. unfold texts. rewrite mapi_nth.
  destruct (nth_error data i) eqn:E.
  - reflexivity.
  - apply nth_error_None in E. lia.
Qed.

Lemma card_text_select (fallback : string) (greetings : list string) (i : nat) :
  greetings <> [] ->
  exists s,
    nth_error greetings (i mod List.length greetings) = Some s
    /\ card_text fallback greetings i = js_or (Some s) fallback.
Proof.
  intro Hne. unfold card_text, js_rem.
  destruct (List.length greetings) as [|n] eqn:L.
  - destruct greetings; [congruence | discriminate].
  - change (js_index greetings (Some (i mod S n)))
      with (nth_error greetings (i mod S n)).
    destruct (nth_error greetings (i mod S n)) as [s|] eqn:E.
    + exists s. auto.
    + apply nth_error_None in E.
      pose proof (Nat.mod_upper_bound i (S n)). lia.
Qed.

(** C7, as stated, fails: in a list whose only greeting is the empty string
    the card at index 0 shows the fallback text, not that greeting. *)
Lemma card_text_empty_greeting :
  ~ (forall (fallback : string) (greetings : list string) (i : nat),
       greetings <> [] ->
       nth_error greetings (i mod List.length greetings)
       = Some (card_text fallback greetings i)).
Proof.
  intro H.
  specialize (H "LUXURY"%string [EmptyString] 0%nat).
  cbv in H.
  assert (G : [EmptyString] <> @nil string) by discriminate.
  specialize (H G). discriminate H.
Qed.

(** C7, amended: the item at index [i] of the card (polaroid) data shows
    [greetings[i mod L]] when the list is non-empty and that greeting is not
    the empty string, and the fixed fallback text when the list is empty or
    the selected greeting is the empty string; with five non-empty greetings,
    item 7 shows the one at index 2. *)
Theorem card_text_wraparound (fallback : string) (greetings : list string)
    (data : list item) (i : nat) :
  (i < List.length data)%nat ->
  exists t,
    nth_error (texts fallback greetings data) i = Some t
    /\ (greetings = [] -> t = fallback)
    /\ (greetings <> [] ->
        exists s,
          nth_error greetings (i mod List.length greetings) = Some s
          /\ (s <> EmptyString -> t = s)
          /\ (s = EmptyString -> t = fallback))
    /\ (forall a b c d e : string,
          greetings = [a; b; c; d; e] -> i = 7%nat -> c <> EmptyString ->
          t = c).
Proof.
  intro Hi. exists (card_text fallback greetings i).
  split; [now apply texts_nth|].
  split; [intros ->; reflexivity|].
  split.
  - intro Hne.
    destruct (card_text_select fallback greetings i Hne) as (s & Hs & Ht).
    exists s. split; [exact Hs|]. rewrite Ht. split.
    + intro N. destruct s; [congruence | reflexivity].
    + intros ->. reflexivity.
  - intros a b c d e -> -> Hc. unfold card_text. simpl.
    destruct c; [congruence | reflexivity].
Qed.

(** Until the greeting promise resolves the list is empty, and every card
    shows the fallback text. *)
Lemma texts_before_greetings (fallback : string) (data : list item) (i : nat) :
  (i < List.length data)%nat ->
  nth_error (texts fallback (App.greetings App.initial) data) i = Some fallback.
Proof. intro H. now rewrite texts_nth. Qed.

Lemma cards_geometry_count (g : Random.stream) (k : nat) :
  List.length (snd (fst (Cards.geometry g k))) = 16%nat
  /\ List.length (snd (fst (Polaroid.geometry g k))) = 12%nat.
Proof.
  split.
  - unfold Cards.geometry, Random.bind, Random.ret.
    destruct (Random.loop Cards.PARTICLE_COUNT 0 (gen_needle 35) g k)
      as [ns k1].
    destruct (Random.loop ORNAMENT_COUNT 0 _ g k1) as [os k2].
    pose proof (loop_length Cards.gen_card g Cards.CARD_COUNT 0%nat k2) as L.
    destruct (Random.loop Cards.CARD_COUNT 0 _ g k2) as [cs k3].
    exact L.
  - unfold Polaroid.geometry, Random.bind, Random.ret.
    destruct (Random.loop Polaroid.PARTICLE_COUNT 0 (gen_needle 30) g k)
      as [ns k1].
    destruct (Random.loop ORNAMENT_COUNT 0 _ g k1) as [os k2].
    pose proof (loop_length Polaroid.gen_polaroid g
                  Polaroid.POLAROID_COUNT 0%nat k2) as L.
    destruct (Random.loop Polaroid.POLAROID_COUNT 0 _ g k2) as [ps k3].
    exact L.
Qed.

Lemma card_text_wraparound_witness :
  exists t,
    nth_error
      (card_texts ["A"; "B"; "C"; "D"; "E"]%string
         (snd (fst (Cards.geometry (fun _ => 0) 0%nat)))) 7 = Some t
    /\ t = "C"%string.
Proof.
  destruct (card_text_wraparound "LUXURY" ["A"; "B"; "C"; "D"; "E"]%string
              (snd (fst (Cards.geometry (fun _ => 0) 0%nat))) 7)
    as (t & Ht & _ & _ & H5).
  - rewrite (proj1 (cards_geometry_count _ _)). lia.
  - exists t. split; [exact Ht|].
    apply (H5 "A" "B" "C" "D" "E")%string; [reflexivity | reflexivity |].
    discriminate.
Defined.

End CardTextFacts.

(** ** The per-item frame callback *)

Section ItemFacts.

Import GrandTree.

(** What the polaroid copy writes, whatever the random stream holds. *)
Lemma polaroid_frame (it : item) (w : world) (g : Random.stream) (k : nat)
    (o : Object3D) :
  fst (FloatingItem_polaroid it w g k) = Some o ->
  obj_position o
  = lerpVectors (chaos it) (target it) (Easing.smoothT (progress w))
  /\ forall fr, rotation it = Some fr ->
       obj_rotation o
       = {| vx := MathUtils.lerp 1 (vx fr) (Easing.smoothT (progress w));
            vy := MathUtils.lerp 1 (vy fr) (Easing.smoothT (progress w));
            vz := MathUtils.lerp 1 (vz fr) (Easing.smoothT (progress w)) |}.
Proof.
  unfold FloatingItem_polaroid.
  destruct (current w) as [o0|]; [|discriminate].
  destruct (rotation it) as [fr|]; simpl; intro H; inversion H; subst; simpl.
  - split; [reflexivity|]. intros fr' E. now inversion E.
  - split; [reflexivity|]. discriminate.
Qed.

(** What the card copy writes: above a progress of 0.9 the height also
    carries the clock. *)
Lemma card_frame (it : item) (w : world) (o : Object3D) :
  FloatingItem_card it w = Some o ->
  let p := lerpVectors (chaos it) (target it) (Easing.smoothT (progress w)) in
  vx (obj_position o) = vx p /\ vz (obj_position o) = vz p
  /\ (progress w <= 0.9 -> vy (obj_position o) = vy p)
  /\ (0.9 < progress w ->
      vy (obj_position o)
      = vy p + sin (elapsedTime w * 2 + vx (chaos it)) * 0.002)
  /\ forall fr, rotation it = Some fr ->
       obj_rotation o
       = {| vx := MathUtils.lerp (vx (chaos it) * 0.1) (vx fr)
                    (Easing.smoothT (progress w));
            vy := MathUtils.lerp (vy (chaos it) * 0.1) (vy fr)
                    (Easing.smoothT (progress w));
            vz := MathUtils.lerp (vz (chaos it) * 0.1) (vz fr)
                    (Easing.smoothT (progress w)) |}.
Proof.
  unfold FloatingItem_card, Rgtb.
  destruct (current w) as [o0|]; [|discriminate].
  intro H. cbv zeta.
  assert (P : obj_position o
              = if Rlt_dec 0.9 (progress w)
                then {| vx := vx (lerpVectors (chaos it) (target it)
                                    (Easing.smoothT (progress w)));
                        vy := vy (lerpVectors (chaos it) (target it)
                                    (Easing.smoothT (progress w)))
                              + sin (elapsedTime w * 2 + vx (chaos it)) * 0.002;
                        vz := vz (lerpVectors (chaos it) (target it)
                                    (Easing.smoothT (progress w))) |}
                else lerpVectors (chaos it) (target it)
                       (Easing.smoothT (progress w))).
  { destruct (rotation it); inversion H; subst; simpl;
      destruct (Rlt_dec 0.9 (progress w)); reflexivity. }
  rewrite P.
  repeat split.
  - destruct (Rlt_dec 0.9 (progress w)); reflexivity.
  - destruct (Rlt_dec 0.9 (progress w)); reflexivity.
  - intro Hle. destruct (Rlt_dec 0.9 (progress w)); [lra | reflexivity].
  - intro Hgt. destruct (Rlt_dec 0.9 (progress w)); [reflexivity | lra].
  - intros fr E. rewrite E in H. inversion H. reflexivity.
Qed.

(** C4, as stated, fails in the card copy: two frames with the same
    dispersed and assembled positions and the same eased value 1, at clock
    times 0 and pi/4, place the item at heights 0 and 0.002. *)
Lemma card_position_reads_clock :
  ~ (forall (it : item) (w1 w2 : world) (o1 o2 : Object3D),
       Easing.smoothT (progress w1) = Easing.smoothT (progress w2) ->
       FloatingItem_card it w1 = Some o1 ->
       FloatingItem_card it w2 = Some o2 ->
       obj_position o1 = obj_position o2).
Proof.
  intro H.
  set (z := mkVector3 0 0 0).
  set (it := {| target := z; chaos := z; rotation := None; color := None |}).
  set (o := mkObject3D z z).
  set (w1 := {| elapsedTime := 0; progress := 1; current := Some o |}).
  set (w2 := {| elapsedTime := PI / 4; progress := 1; current := Some o |}).
  destruct (FloatingItem_card it w1) as [o1|] eqn:E1; [|discriminate E1].
  destruct (FloatingItem_card it w2) as [o2|] eqn:E2; [|discriminate E2].
  specialize (H it w1 w2 o1 o2 eq_refl E1 E2).
  destruct (card_frame it w1 o1 E1) as (_ & _ & _ & Y1 & _).
  destruct (card_frame it w2 o2 E2) as (_ & _ & _ & Y2 & _).
  simpl in Y1, Y2.
  assert (G : 0.9 < 1) by lra.
  specialize (Y1 G). specialize (Y2 G).
  replace (0 * 2 + 0) with 0 in Y1 by lra.
  replace (PI / 4 * 2 + 0) with (PI / 2) in Y2 by lra.
  rewrite sin_0 in Y1. rewrite sin_PI2 in Y2.
  rewrite H in Y1. lra.
Qed.

(** C4, amended: for two invocations on items with the same dispersed
    position, assembled position and assembled rotation, at the same progress
    value (hence the same eased value), the polaroid copy computes the same
    position and rotation whatever the clock, the previous transform and the
    random stream are; the card copy computes the same rotation, and the same
    position provided the two clock readings agree or the progress is at most
    0.9 (above 0.9 the height also carries
    sin(2 * elapsedTime + chaos.x) * 0.002).  The card copy tests the raw
    progress against 0.9, so it is the progress, not the eased value, that
    the two invocations must share. *)
Theorem floating_item_determinism (it1 it2 : item) (w1 w2 : world)
    (o1 o2 : Object3D) :
  chaos it1 = chaos it2 -> target it1 = target it2 ->
  rotation it1 = rotation it2 ->
  progress w1 = progress w2 ->
  (forall g1 g2 k1 k2,
      fst (FloatingItem_polaroid it1 w1 g1 k1) = Some o1 ->
      fst (FloatingItem_polaroid it2 w2 g2 k2) = Some o2 ->
      obj_position o1 = obj_position o2
      /\ (rotation it1 <> None -> obj_rotation o1 = obj_rotation o2))
  /\ (FloatingItem_card it1 w1 = Some o1 ->
      FloatingItem_card it2 w2 = Some o2 ->
      (elapsedTime w1 = elapsedTime w2 \/ progress w1 <= 0.9 ->
       obj_position o1 = obj_position o2)
      /\ (rotation it1 <> None -> obj_rotation o1 = obj_rotation o2)).
Proof.
  intros Hc Ht Hr Hp.
  assert (He : Easing.smoothT (progress w1) = Easing.smoothT (progress w2))
    by (now rewrite Hp).
  split.
  - intros g1 g2 k1 k2 E1 E2.
    destruct (polaroid_frame _ _ _ _ _ E1) as [P1 R1].
    destruct (polaroid_frame _ _ _ _ _ E2) as [P2 R2].
    split.
    + rewrite P1, P2, Hc, Ht, He. reflexivity.
    + intro N. destruct (rotation it1) as [fr|] eqn:F; [|congruence].
      rewrite (R1 fr eq_refl), (R2 fr (eq_sym Hr)), He. reflexivity.
  - intros E1 E2.
    destruct (card_frame _ _ _ E1) as (X1 & Z1 & L1 & G1 & R1).
    destruct (card_frame _ _ _ E2) as (X2 & Z2 & L2 & G2 & R2).
    cbv zeta in *. split.
    + intro Hclock.
      assert (Y : vy (obj_position o1) = vy (obj_position o2)).
      { destruct (Rle_or_lt (progress w1) 0.9) as [Le|Gt].
        - rewrite (L1 Le), L2 by (rewrite <- Hp; exact Le).
          now rewrite Hc, Ht, He.
        - destruct Hclock as [Ck|Le]; [|lra].
          rewrite (G1 Gt), G2 by (rewrite <- Hp; exact Gt).
          now rewrite Hc, Ht, He, Ck. }
      destruct (obj_position o1) as [x1 y1 z1], (obj_position o2) as [x2 y2 z2].
      simpl in *. rewrite X1, X2, Z1, Z2, Y, Hc, Ht, He. reflexivity.
    + intro N. destruct (rotation it1) as [fr|] eqn:F; [|congruence].
      rewrite (R1 fr eq_refl), (R2 fr (eq_sym Hr)), Hc, He. reflexivity.
Qed.

Lemma floating_item_determinism_witness :
  let z := mkVector3 0 0 0 in
  let it := {| target := z; chaos := z; rotation := Some z; color := None |} in
  let o := mkObject3D z z in
  let w1 := {| elapsedTime := 0; progress := 0.5; current := Some o |} in
  let w2 := {| elapsedTime := 3; progress := 0.5; current := Some o |} in
  exists o1 o2,
    FloatingItem_card it w1 = Some o1 /\ FloatingItem_card it w2 = Some o2
    /\ obj_position o1 = obj_position o2.
Proof.
  intros z it o w1 w2.
  destruct (FloatingItem_card it w1) as [o1|] eqn:E1; [|discriminate E1].
  destruct (FloatingItem_card it w2) as [o2|] eqn:E2; [|discriminate E2].
  exists o1, o2. split; [reflexivity|]. split; [reflexivity|].
  apply (proj2 (floating_item_determinism it it w1 w2 o1 o2
                  eq_refl eq_refl eq_refl eq_refl) E1 E2).
  right. simpl. lra.
Defined.

End ItemFacts.

(** ** The point size of the foliage shader *)

Section ShaderFacts.

Import TreeMaterials.

(** The copy with the safety clamp never yields a size below 2. *)
Lemma clamped_point_size_floor (u : shader_uniforms) (a : attributes) :
  2 <= gl_PointSize (main_clamped u a).
Proof.
  unfold main_clamped. simpl.
  match goal with |- context [Rlt_dec ?s 2] => destruct (Rlt_dec s 2) end; lra.
Qed.

(** The camera of App.tsx's sibling, 22 units in front of the origin, seen
    as a model-view matrix; a fully assembled needle at the origin. *)
Lemma view_depth_at_origin (m : Matrix4) (u : shader_uniforms) (a : attributes) :
  uProgress u = 1 -> modelViewMatrix u = m ->
  row3 m = mkVector4 0 0 1 (-22) ->
  aTargetPos a = mkVector3 0 0 0 ->
  wz (mvPosition u a) = -22.
Proof.
  intros P M R3 T.
  unfold mvPosition, transform, dot4, mix3, mix, Easing.easeOutCubic, pow3.
  rewrite P, M, R3, T. simpl. ring.
Qed.

(** C8 fails in the copy of the shader without the clamp: a fully assembled
    needle at the origin with [aRandom = 0], seen from 22 units away, gets
    the point size 2/11, where the clamped copy gives 2. *)
Theorem unclamped_point_size_below_floor :
  let m := {| row1 := mkVector4 1 0 0 0; row2 := mkVector4 0 1 0 (-4);
              row3 := mkVector4 0 0 1 (-22); row4 := mkVector4 0 0 0 1 |} in
  let u := {| uProgress := 1; uTime := 0; modelViewMatrix := m;
              projectionMatrix := identity4 |} in
  let a := {| aChaosPos := mkVector3 10 (-3) 5;
              aTargetPos := mkVector3 0 0 0; aRandom := 0 |} in
  gl_PointSize (main_unclamped u a) = 2 / 11
  /\ gl_PointSize (main_unclamped u a) < 2
  /\ gl_PointSize (main_clamped u a) = 2.
Proof.
  intros m u a.
  assert (D : wz (mvPosition u a) = -22)
    by (apply (view_depth_at_origin m); reflexivity).
  assert (E : Easing.easeOutCubic 1 = 1)
    by (unfold Easing.easeOutCubic, pow3; simpl; lra).
  assert (S1 : gl_PointSize (main_unclamped u a) = 2 / 11).
  { unfold main_unclamped. cbv zeta. cbn [gl_PointSize].
    rewrite D. cbn [uProgress aRandom u a]. rewrite E.
    replace (- (-22)) with 22 by lra. lra. }
  split; [exact S1|]. split; [rewrite S1; lra|].
  unfold main_clamped. cbv zeta. cbn [gl_PointSize].
  rewrite D. cbn [uProgress aRandom u a]. rewrite E.
  replace (- (-22)) with 22 by lra.
  match goal with |- context [Rlt_dec ?s 2] => destruct (Rlt_dec s 2) end; lra.
Qed.

End ShaderFacts.

(** ** The fallback of the greeting provider *)

Section GreetingFacts.

Import GeminiService.

Variable JSON_parse : string -> option (list string).

(** The copy with one default list returns that list, of six strings, on
    every failure, and also when the text does not parse or parses to an
    empty array. *)
Lemma defaults_on_failure (API_KEY : string) (o : outcome) :
  failed API_KEY o ->
  generateLuxuryGreetings_defaults JSON_parse API_KEY o = defaults
  /\ (4 <= List.length defaults)%nat.
Proof.
  intro F. split; [|simpl; lia].
  unfold generateLuxuryGreetings_defaults.
  destruct API_KEY as [|c key]; [reflexivity|].
  destruct F as [F | [F | (text & F & T)]].
  - discriminate F.
  - now rewrite F.
  - rewrite F, T. reflexivity.
Qed.

Lemma defaults_never_empty (API_KEY : string) (o : outcome) :
  generateLuxuryGreetings_defaults JSON_parse API_KEY o <> [].
Proof.
  unfold generateLuxuryGreetings_defaults.
  destruct API_KEY as [|c key]; [discriminate|].
  destruct o as [|text]; [discriminate|].
  destruct (no_text text); [discriminate|].
  destruct (JSON_parse (text_of text)) as [[|s l]|]; simpl; discriminate.
Qed.

(** C5 fails in the copy of the service with a literal per failure: with an
    API key and a response without text it returns the single string
    "Seasons Greetings", fewer than four, and a list other than the ones it
    returns without a key or after a request error. *)
Theorem literals_fallback_differs :
  let no_text_case :=
    generateLuxuryGreetings_literals JSON_parse "key" (Resolved None) in
  let no_key_case :=
    generateLuxuryGreetings_literals JSON_parse EmptyString (Resolved None) in
  let error_case :=
    generateLuxuryGreetings_literals JSON_parse "key" Rejected in
  failed "key" (Resolved None)
  /\ no_text_case = ["Seasons Greetings"%string]
  /\ (List.length no_text_case < 4)%nat
  /\ no_text_case <> no_key_case
  /\ no_text_case <> error_case
  /\ no_key_case <> error_case.
Proof.
  cbv zeta. repeat split.
  - right. right. exists None. split; reflexivity.
  - simpl. lia.
  - discriminate.
  - discriminate.
  - discriminate.
Qed.

End GreetingFacts.

(** * Further properties of the sources *)

(** ** HandController: the classifier on a frame with a hand *)

Section ClassifierFacts.

Import HandController.

(** X1: the skin test amounts to five comparisons: the spread [max - min > 15]
    follows from [r > g] and [|r - g| > 15]. *)
Theorem skin_threshold (r g b : Z) :
  skin r g b = true
  <-> (95 < r /\ 40 < g /\ 20 < b /\ b < r /\ 15 < r - g)%Z.
Proof.
  unfold skin. rewrite !andb_true_iff, !Z.gtb_lt. lia.
Qed.

Lemma record_pixel_ok (rows p : Z) (a : stats) :
  (0 <= p)%Z -> (p < 100 * (rows + 1))%Z -> (rows < 75)%Z ->
  Scene.stats_ok rows a -> Scene.stats_ok rows (record_pixel p a).
Proof.
  intros Hp Hb Hr Ha.
  assert (Hx : (0 <= p mod canvas_width < 100)%Z)
    by (apply Z.mod_pos_bound; reflexivity).
  assert (Hy : (0 <= p / canvas_width <= rows)%Z).
  { split.
    - apply Z.div_pos; [exact Hp | reflexivity].
    - assert (p / canvas_width < rows + 1)%Z; [|lia].
      apply Z.div_lt_upper_bound; [reflexivity | unfold canvas_width; lia]. }
  unfold record_pixel.
  set (x := (p mod canvas_width)%Z) in *.
  set (y := (p / canvas_width)%Z) in *.
  right. unfold Scene.stats_ok in Ha. cbn [pixelCount xSum ySum minX maxX minY maxY].
  destruct Ha as [(C & SX & SY & NX & MX & NY & MY) | (C & BX & MX & BY & MY & SX & SY)].
  - rewrite C, SX, SY, NX, MX, NY, MY. unfold canvas_width, canvas_height.
    destruct (Z.ltb_spec x 100), (Z.gtb_spec x 0),
      (Z.ltb_spec y 75), (Z.gtb_spec y 0); lia.
  - destruct (Z.ltb_spec x (minX a)), (Z.gtb_spec x (maxX a)),
      (Z.ltb_spec y (minY a)), (Z.gtb_spec y (maxY a)); nia.
Qed.

Lemma scan_ok (rows : Z) (n : nat) :
  (rows < 75)%Z ->
  forall (data : list Z) (p : Z) (a : stats),
    (List.length data <= n)%nat -> (0 <= p)%Z ->
    (Z.of_nat (List.length data) <= 4 * (100 * (rows + 1) - p))%Z ->
    Scene.stats_ok rows a -> Scene.stats_ok rows (scan data p a).
Proof.
  intro Hr. induction n as [|n IH]; intros data p a Hn Hp Hb Ha.
  - destruct data; [exact Ha | simpl in Hn; lia].
  - destruct data as [|r [|g [|b [|al rest]]]]; try exact Ha.
    cbn [scan]. cbn [List.length] in Hn, Hb.
    apply IH.
    + lia.
    + lia.
    + lia.
    + destruct (skin r g b); [|exact Ha].
      apply record_pixel_ok; [exact Hp | lia | exact Hr | exact Ha].
Qed.

Lemma scan_canvas (data : list Z) :
  Scene.canvas_frame data -> Scene.stats_ok 74 (scan data 0 init_stats).
Proof.
  intro H. unfold Scene.canvas_frame in H.
  apply (scan_ok 74 (List.length data)).
  - lia.
  - lia.
  - lia.
  - rewrite H. vm_compute. discriminate.
  - left. repeat split.
Qed.

(** X2: on a frame of the 100 x 75 canvas the accumulators describe a bounding
    box inside the canvas that contains the centroid: once a skin pixel is
    seen, [0 <= minX <= xSum / count <= maxX <= 99], and likewise for the
    rows up to 74. *)
Theorem bounding_box_in_canvas (data : list Z) :
  Scene.canvas_frame data ->
  let a := scan data 0 init_stats in
  (0 <= pixelCount a)%Z
  /\ ((0 < pixelCount a)%Z ->
      (0 <= minX a <= maxX a)%Z /\ (maxX a <= 99)%Z
      /\ (0 <= minY a <= maxY a)%Z /\ (maxY a <= 74)%Z
      /\ (0 <= xSum a <= 99 * pixelCount a)%Z
      /\ (0 <= ySum a <= 74 * pixelCount a)%Z).
Proof.
  intros H a.
  destruct (scan_canvas data H) as [(C & _) | (C & BX & MX & BY & MY & SX & SY)];
    fold a in C |- *.
  - split; [lia|]. intro. lia.
  - fold a in BX, MX, BY, MY, SX, SY. split; [lia|]. intros _. repeat split; lia.
Qed.

Lemma skin_frame_canvas : Scene.canvas_frame Scene.skin_frame.
Proof.
  unfold Scene.canvas_frame. apply Nat2Z.inj.
  rewrite Z2Nat.id by (vm_compute; discriminate).
  vm_compute. reflexivity.
Qed.

Lemma skin_frame_scan :
  scan Scene.skin_frame 0 init_stats
  = {| xSum := 371250; ySum := 277500; pixelCount := 7500;
       minX := 0; maxX := 99; minY := 0; maxY := 74 |}.
Proof. vm_compute. reflexivity. Qed.

Lemma bounding_box_in_canvas_witness :
  let a := scan Scene.skin_frame 0 init_stats in
  (0 <= minX a <= maxX a)%Z /\ (maxX a <= 99)%Z.
Proof.
  intro a.
  destruct (bounding_box_in_canvas Scene.skin_frame skin_frame_canvas)
    as [_ B].
  destruct B as (BX & MX & _).
  - rewrite skin_frame_scan. reflexivity.
  - split; assumption.
Defined.

Lemma centre_range (sum count : Z) (width top : R) :
  (0 < count)%Z -> 0 < width -> 0 <= top <= width ->
  0 <= IZR sum <= top * IZR count ->
  0 <= IZR sum / IZR count / width <= 1.
Proof.
  intros Hc Hw Ht [H0 H1].
  assert (C : 0 < IZR count) by (apply IZR_lt; exact Hc).
  assert (Q : 0 <= IZR sum / IZR count <= top).
  { split.
    - apply Rmult_le_pos; [exact H0 | left; now apply Rinv_0_lt_compat].
    - apply Rmult_le_reg_r with (IZR count); [exact C|].
      unfold Rdiv. rewrite Rmult_assoc, Rinv_l by lra. lra. }
  split.
  - apply Rmult_le_pos; [lra | left; now apply Rinv_0_lt_compat].
  - apply Rmult_le_reg_r with width; [exact Hw|].
    unfold Rdiv at 1. rewrite Rmult_assoc, Rinv_l by lra. lra.
Qed.

Lemma hand_offsets_in_range (data : list Z) :
  Scene.canvas_frame data ->
  let a := scan data 0 init_stats in
  (200 < pixelCount a)%Z ->
  -1 <= (IZR (xSum a) / IZR (pixelCount a) / IZR canvas_width - 0.5) * -2 <= 1
  /\ -1 <= (IZR (ySum a) / IZR (pixelCount a) / IZR canvas_height - 0.5) * 2 <= 1.
Proof.
  intros H a G.
  destruct (scan_canvas data H) as [(C & _) | (C & BX & MX & BY & MY & SX & SY)];
    fold a in C; [lia|].
  fold a in SX, SY.
  assert (CX : 0 <= IZR (xSum a) / IZR (pixelCount a) / IZR canvas_width <= 1).
  { apply centre_range with (top := 99); [lia | | |].
    - unfold canvas_width. lra.
    - unfold canvas_width. lra.
    - split; [apply IZR_le; lia|].
      rewrite <- mult_IZR. apply IZR_le. lia. }
  assert (CY : 0 <= IZR (ySum a) / IZR (pixelCount a) / IZR canvas_height <= 1).
  { apply centre_range with (top := 74); [lia | | |].
    - unfold canvas_height. lra.
    - unfold canvas_height. lra.
    - split; [apply IZR_le; lia|].
      rewrite <- mult_IZR. apply IZR_le. lia. }
  lra.
Qed.

Lemma processFrame_hand (data : list Z) :
  let a := scan data 0 init_stats in
  (200 < pixelCount a)%Z ->
  processFrame (Some data)
  = [ CameraMove
        ((IZR (xSum a) / IZR (pixelCount a) / IZR canvas_width - 0.5) * -2)
        ((IZR (ySum a) / IZR (pixelCount a) / IZR canvas_height - 0.5) * 2);
      UnleashChange
        (Rgtb (IZR ((maxX a - minX a) * (maxY a - minY a))
               / IZR (canvas_width * canvas_height)) 0.15) ].
Proof.
  intros a G. unfold processFrame. fold a.
  destruct (Z.gtb_spec (pixelCount a) 200) as [_|L]; [|lia].
  do 3 f_equal. now destruct (Rgtb _ 0.15).
Qed.

(** X3: every pointer offset the controller reports for a frame of the canvas
    has both components in [-1, 1]. *)
Theorem camera_move_in_range (data : list Z) (x y : R) :
  Scene.canvas_frame data ->
  In (CameraMove x y) (processFrame (Some data)) ->
  -1 <= x <= 1 /\ -1 <= y <= 1.
Proof.
  intros H I.
  destruct (Z.ltb_spec 200 (pixelCount (scan data 0 init_stats))) as [G|G].
  - rewrite (processFrame_hand data G) in I.
    destruct I as [I | [I | []]]; [|discriminate I].
    inversion I; subst x y. now apply hand_offsets_in_range.
  - rewrite (processFrame_no_hand data G) in I.
    destruct I as [I | []]. discriminate I.
Qed.

Lemma camera_move_in_range_witness :
  exists x y,
    In (CameraMove x y) (processFrame (Some Scene.skin_frame))
    /\ -1 <= x <= 1 /\ -1 <= y <= 1.
Proof.
  pose proof (processFrame_hand Scene.skin_frame) as P. cbv zeta in P.
  rewrite skin_frame_scan in P.
  specialize (P eq_refl).
  eexists _, _. split.
  - rewrite P. left. reflexivity.
  - apply (camera_move_in_range Scene.skin_frame _ _ skin_frame_canvas).
    rewrite P. left. reflexivity.
Defined.

Lemma percent_threshold (area : Z) :
  Rgtb (IZR area / IZR (canvas_width * canvas_height)) 0.15 = true
  <-> (1125 < area)%Z.
Proof.
  unfold Rgtb, canvas_width, canvas_height.
  change (100 * 75)%Z with 7500%Z.
  destruct (Rlt_dec 0.15 (IZR area / 7500)) as [L|L]; split; intro H;
    try reflexivity; try discriminate.
  - apply lt_IZR. lra.
  - exfalso. apply L. apply IZR_lt in H. lra.
Qed.

(** X4: what a frame makes the controller call: the pointer offset first, and
    only when more than 200 skin pixels were counted; then exactly one
    unleash decision, which is "unleashed" exactly when in addition the
    bounding box spans more than 1125 cells (15% of the canvas). *)
Theorem unleash_decision (data : list Z) :
  let a := scan data 0 init_stats in
  let hand := (200 <? pixelCount a)%Z in
  let wide := (1125 <? (maxX a - minX a) * (maxY a - minY a))%Z in
  exists moves,
    processFrame (Some data) = moves ++ [UnleashChange (hand && wide)]
    /\ (if hand then exists x y, moves = [CameraMove x y] else moves = []).
Proof.
  cbv zeta. unfold processFrame.
  set (a := scan data 0 init_stats).
  rewrite Z.gtb_ltb.
  destruct (Z.ltb_spec 200 (pixelCount a)) as [G|G].
  - eexists [_]. split.
    + cbn [app andb]. do 2 f_equal.
      destruct (Z.ltb_spec 1125 ((maxX a - minX a) * (maxY a - minY a))) as [W|W].
      * apply percent_threshold in W. now rewrite W.
      * destruct (Rgtb _ 0.15) eqn:E; [|reflexivity].
        apply percent_threshold in E. lia.
    + eexists _, _. reflexivity.
  - exists []. split; reflexivity.
Qed.

End ClassifierFacts.

(** ** App: the control state under its two input sources *)

Section ControlFacts.

Import HandController.

Lemma sqrt_threshold (d : R) : 0 <= d -> (0.6 < sqrt d <-> 0.36 < d).
Proof.
  intro Hd.
  assert (S6 : sqrt 0.36 = 0.6).
  { replace 0.36 with (0.6 * 0.6) by lra. apply sqrt_square. lra. }
  split; intro H.
  - rewrite <- (sqrt_sqrt d Hd).
    assert (0 <= sqrt d) by apply sqrt_pos. nra.
  - rewrite <- S6. apply sqrt_lt_1_alt. lra.
Qed.

Lemma mouse_offsets_in_range (cx cy w h : R) :
  Scene.in_window cx cy w h ->
  -1 <= cx / w * 2 - 1 <= 1 /\ -1 <= - (cy / h) * 2 + 1 <= 1.
Proof.
  intros (Hw & Hh & Hx & Hy).
  assert (X : 0 <= cx / w <= 1).
  { split.
    - apply Rmult_le_pos; [lra | left; now apply Rinv_0_lt_compat].
    - apply Rmult_le_reg_r with w; [exact Hw|].
      unfold Rdiv. rewrite Rmult_assoc, Rinv_l by lra. lra. }
  assert (Y : 0 <= cy / h <= 1).
  { split.
    - apply Rmult_le_pos; [lra | left; now apply Rinv_0_lt_compat].
    - apply Rmult_le_reg_r with h; [exact Hh|].
      unfold Rdiv. rewrite Rmult_assoc, Rinv_l by lra. lra. }
  lra.
Qed.

(** X5: in mouse-fallback mode a pointer event inside the window stores an
    offset with both components in [-1, 1], and unleashes the tree exactly
    when that offset lies outside the circle of radius 0.6 around the
    centre, that is when [x^2 + y^2 > 0.36]. *)
Theorem mouse_fallback_signal (s : App.state) (cx cy w h : R) :
  App.useMouseFallback s = true -> Scene.in_window cx cy w h ->
  let s' := App.handleMouseMove cx cy w h s in
  let x := App.px (App.cameraDelta s') in
  let y := App.py (App.cameraDelta s') in
  Scene.unit_pointer (App.cameraDelta s')
  /\ (App.unleashed s' = true <-> 0.36 < x * x + y * y).
Proof.
  intros F W. unfold App.handleMouseMove. rewrite F. cbn.
  split.
  - apply (mouse_offsets_in_range cx cy w h W).
  - unfold Rgtb.
    set (x := cx / w * 2 - 1). set (y := - (cy / h) * 2 + 1).
    assert (D : 0 <= x * x + y * y) by nra.
    destruct (Rlt_dec 0.6 (sqrt (x * x + y * y))) as [L|L].
    + split; [intros _; now apply sqrt_threshold | reflexivity].
    + split; [discriminate|]. intro G. exfalso. apply L.
      now apply sqrt_threshold.
Qed.

Lemma mouse_fallback_signal_witness :
  let s := App.step App.initial App.CameraDenied in
  Scene.unit_pointer
    (App.cameraDelta (App.handleMouseMove 400 300 800 600 s)).
Proof.
  intro s.
  assert (W : Scene.in_window 400 300 800 600)
    by (unfold Scene.in_window; lra).
  exact (proj1 (mouse_fallback_signal s 400 300 800 600 eq_refl W)).
Defined.

Lemma deliver_signals (s : App.state) (data : list Z) :
  let a := scan data 0 init_stats in
  let s' := fold_left (fun acc sg => App.deliver sg acc)
              (processFrame (Some data)) s in
  ((pixelCount a <= 200)%Z -> s' = App.setUnleashed false s)
  /\ ((200 < pixelCount a)%Z ->
      s' = App.setUnleashed
             (Rgtb (IZR ((maxX a - minX a) * (maxY a - minY a))
                    / IZR (canvas_width * canvas_height)) 0.15)
             (App.setCameraDelta
                {| App.px := (IZR (xSum a) / IZR (pixelCount a)
                              / IZR canvas_width - 0.5) * -2;
                   App.py := (IZR (ySum a) / IZR (pixelCount a)
                              / IZR canvas_height - 0.5) * 2 |} s)).
Proof.
  cbv zeta. split; intro G.
  - now rewrite (processFrame_no_hand data G).
  - now rewrite (processFrame_hand data G).
Qed.

(** X6: the tree is unleashed only by a gesture: a step takes [unleashed] from
    false to true only on a hand frame, with the controller mounted, that has
    more than 200 skin pixels in a bounding box of more than 1125 cells, or
    on a pointer event in mouse-fallback mode farther than 0.6 from the
    centre. *)
Theorem unleashed_only_by_gesture (s : App.state) (e : App.event) :
  App.unleashed s = false -> App.unleashed (App.step s e) = true ->
  (exists data,
      e = App.HandTick (Some data)
      /\ App.handControllerMounted s = true
      /\ let a := scan data 0 init_stats in
         (200 < pixelCount a)%Z
         /\ (1125 < (maxX a - minX a) * (maxY a - minY a))%Z)
  \/ (exists cx cy w h,
        e = App.MouseMove cx cy w h
        /\ App.useMouseFallback s = true
        /\ 0.6 < sqrt ((cx / w * 2 - 1) * (cx / w * 2 - 1)
                       + (- (cy / h) * 2 + 1) * (- (cy / h) * 2 + 1))).
Proof.
  intros U0 U1.
  destruct e as [g | | | cx cy w h | [data|]]; unfold App.step in U1;
    try (simpl in U1; congruence).
  - right. exists cx, cy, w, h. unfold App.handleMouseMove in U1.
    destruct (App.useMouseFallback s) eqn:F; simpl in U1; [|congruence].
    split; [reflexivity|]. split; [reflexivity|].
    unfold Rgtb in U1.
    match type of U1 with
    | (if Rlt_dec ?a ?b then _ else _) = _ =>
        destruct (Rlt_dec a b) as [L|L]; [exact L | discriminate U1]
    end.
  - left. exists data. split; [reflexivity|].
    destruct (App.handControllerMounted s) eqn:M; [|congruence].
    split; [reflexivity|].
    destruct (deliver_signals s data) as [N Y]. cbv zeta in *.
    destruct (Z.ltb_spec 200 (pixelCount (scan data 0 init_stats))) as [G|G].
    + split; [exact G|]. rewrite (Y G) in U1. simpl in U1.
      now apply percent_threshold.
    + rewrite (N G) in U1. simpl in U1. discriminate U1.
  - destruct (App.handControllerMounted s); simpl in U1; congruence.
Qed.

Lemma unleashed_only_by_gesture_witness :
  let s := App.step App.initial App.CameraGranted in
  exists data,
    App.HandTick (Some Scene.skin_frame) = App.HandTick (Some data)
    /\ (200 < pixelCount (scan data 0 init_stats))%Z.
Proof.
  intro s.
  destruct (unleashed_only_by_gesture s (App.HandTick (Some Scene.skin_frame)))
    as [(data & E & _ & G & _) | (cx & cy & w & h & E & _)].
  - reflexivity.
  - unfold App.step. change (App.handControllerMounted s) with true.
    cbv iota.
    destruct (deliver_signals s Scene.skin_frame) as [_ Y].
    cbv zeta in Y. rewrite skin_frame_scan in Y.
    rewrite (Y eq_refl). cbn [App.unleashed App.setUnleashed].
    apply percent_threshold. reflexivity.
  - exists data. split; [exact E | exact G].
  - discriminate E.
Defined.

Lemma fallback_sticky (es : list App.event) :
  forall s, App.useMouseFallback s = true ->
            App.useMouseFallback (App.run s es) = true.
Proof.
  unfold App.run. induction es as [|e es IH]; intros s F; [exact F|].
  simpl. apply IH.
  destruct e as [g | | | cx cy w h | frame]; simpl; try assumption.
  - reflexivity.
  - unfold App.handleMouseMove. rewrite F. simpl. exact F.
  - unfold App.handControllerMounted. rewrite F, andb_false_r. exact F.
Qed.

(** X7: the two input sources exclude each other: once the mouse fallback is on
    it stays on through any run of events and every later hand frame leaves
    the control state untouched; while it is off, every pointer event
    does. *)
Theorem input_sources_exclusive (s : App.state) (es : list App.event) :
  (App.useMouseFallback s = true ->
   forall frame,
     App.step (App.run s es) (App.HandTick frame) = App.run s es)
  /\ (App.useMouseFallback (App.run s es) = false ->
      App.useMouseFallback s = false
      /\ forall cx cy w h,
           App.step (App.run s es) (App.MouseMove cx cy w h) = App.run s es).
Proof.
  split.
  - intros F frame. pose proof (fallback_sticky es s F) as F'.
    simpl. unfold App.handControllerMounted. now rewrite F', andb_false_r.
  - intro F. split.
    + destruct (App.useMouseFallback s) eqn:E; [|reflexivity].
      rewrite (fallback_sticky es s E) in F. discriminate F.
    + intros. simpl. unfold App.handleMouseMove. now rewrite F.
Qed.

Lemma input_sources_exclusive_witness :
  App.step (App.run App.initial [App.CameraDenied; App.CameraGranted])
    (App.HandTick (Some Scene.skin_frame))
  = App.run App.initial [App.CameraDenied; App.CameraGranted].
Proof.
  apply (proj1 (input_sources_exclusive
                  (App.step App.initial App.CameraDenied)
                  [App.CameraGranted])).
  reflexivity.
Defined.

Lemma step_unit_pointer (s : App.state) (e : App.event) :
  Scene.wellformed e -> Scene.unit_pointer (App.cameraDelta s) ->
  Scene.unit_pointer (App.cameraDelta (App.step s e)).
Proof.
  intros W U.
  destruct e as [g | | | cx cy w h | [data|]]; unfold App.step;
    try exact U.
  - unfold App.handleMouseMove.
    destruct (App.useMouseFallback s); simpl; [|exact U].
    apply (mouse_offsets_in_range cx cy w h W).
  - destruct (App.handControllerMounted s); [|exact U].
    destruct (deliver_signals s data) as [N Y]. cbv zeta in *.
    destruct (Z.ltb_spec 200 (pixelCount (scan data 0 init_stats))) as [G|G].
    + rewrite (Y G). simpl. now apply hand_offsets_in_range.
    + rewrite (N G). exact U.
  - destruct (App.handControllerMounted s); exact U.
Qed.

(** X8: whatever the run of events (frames of the canvas size, pointer events
    inside the window), the pointer offset held by the control state keeps
    both components in [-1, 1]. *)
Theorem camera_delta_stays_unit (es : list App.event) :
  Forall Scene.wellformed es ->
  Scene.unit_pointer (App.cameraDelta (App.run App.initial es)).
Proof.
  assert (G : forall s, Forall Scene.wellformed es ->
                        Scene.unit_pointer (App.cameraDelta s) ->
                        Scene.unit_pointer (App.cameraDelta (App.run s es))).
  { unfold App.run. induction es as [|e es IH]; intros s W U; [exact U|].
    inversion W; subst. simpl. apply IH; [assumption|].
    now apply step_unit_pointer. }
  intro W. apply G; [exact W|].
  unfold Scene.unit_pointer. simpl. lra.
Qed.

Lemma camera_delta_stays_unit_witness :
  Scene.unit_pointer
    (App.cameraDelta
       (App.run App.initial
          [App.CameraGranted; App.HandTick (Some Scene.skin_frame)])).
Proof.
  apply camera_delta_stays_unit.
  constructor; [exact I|].
  constructor; [exact skin_frame_canvas | constructor].
Defined.

(** X9: a hand frame without a hand (at most 200 skin pixels), a tick without a
    frame and a tick while the controller is not mounted all leave the
    pointer offset at its last value; a tick never touches the greetings or
    the permission flags. *)
Theorem hand_tick_holds_offset (s : App.state) (frame : option (list Z)) :
  let s' := App.step s (App.HandTick frame) in
  App.greetings s' = App.greetings s
  /\ App.hasCameraPermission s' = App.hasCameraPermission s
  /\ App.useMouseFallback s' = App.useMouseFallback s
  /\ (App.handControllerMounted s = false \/ frame = None -> s' = s)
  /\ (forall data, frame = Some data ->
        (pixelCount (scan data 0 init_stats) <= 200)%Z ->
        App.cameraDelta s' = App.cameraDelta s).
Proof.
  cbv zeta. unfold App.step.
  destruct (App.handControllerMounted s) eqn:M.
  - destruct frame as [data|].
    + destruct (deliver_signals s data) as [N Y]. cbv zeta in *.
      destruct (Z.ltb_spec 200 (pixelCount (scan data 0 init_stats))) as [G|G].
      * rewrite (Y G).
        split; [reflexivity|]. split; [reflexivity|]. split; [reflexivity|].
        split.
        -- intros [H|H]; discriminate H.
        -- intros d E L. inversion E; subst. lia.
      * rewrite (N G).
        split; [reflexivity|]. split; [reflexivity|]. split; [reflexivity|].
        split.
        -- intros [H|H]; discriminate H.
        -- intros d E L. reflexivity.
    + split; [reflexivity|]. split; [reflexivity|]. split; [reflexivity|].
      split; [reflexivity|]. intros d E. discriminate E.
  - split; [reflexivity|]. split; [reflexivity|]. split; [reflexivity|].
    split; reflexivity.
Qed.

Lemma hand_tick_holds_offset_witness :
  let s := App.step App.initial App.CameraGranted in
  App.cameraDelta (App.step s (App.HandTick (Some black_frame)))
  = App.cameraDelta s.
Proof.
  intro s.
  destruct (hand_tick_holds_offset s (Some black_frame)) as (_ & _ & _ & _ & H).
  apply (H black_frame eq_refl). rewrite black_frame_count. lia.
Defined.

End ControlFacts.

(** ** GrandTree: runs of the animation loop *)

Section LoopFacts.

Import Progress.

Lemma step_in_unit (isFormed : bool) (dt v : R) :
  0 <= dt -> dt * 1.5 <= 1 -> 0 <= v <= 1 -> 0 <= step isFormed dt v <= 1.
Proof.
  intros H0 H1 Hv. unfold step, MathUtils.lerp.
  destruct isFormed; simpl; split; nra.
Qed.

Lemma tree_frames_app (spin : R) (ticks : list Scene.tick) (k : Scene.tick)
    (s : tree_state) :
  Scene.tree_frames spin (ticks ++ [k]) s
  = useFrame spin (Scene.tick_formed k) (Scene.tick_clock k)
      (Scene.tick_delta k) (Scene.tree_frames spin ticks s).
Proof. unfold Scene.tree_frames. now rewrite fold_left_app. Qed.

(** X10: over any run of frames whose frame times keep the blend factor
    [1.5 * delta] in [0, 1], with the target flipping at will, the progress
    started at 0 stays in [0, 1], and the shader uniform [uProgress] always
    equals it. *)
Theorem progress_stays_in_unit (spin : R) (ticks : list Scene.tick) :
  Forall Scene.tame ticks ->
  let s := Scene.tree_frames spin ticks Scene.initial_tree in
  0 <= currentProgress s <= 1
  /\ exists u, material s = Some u /\ uProgress u = currentProgress s.
Proof.
  induction ticks as [|k ticks IH] using rev_ind; intro T; cbv zeta.
  - simpl. split; [lra|]. eexists. split; reflexivity.
  - apply Forall_app in T. destruct T as [T Tk].
    inversion Tk as [|? ? [K0 K1] _]; subst.
    destruct (IH T) as [R (u & M & _)]. cbv zeta in *.
    rewrite tree_frames_app.
    set (s := Scene.tree_frames spin ticks Scene.initial_tree) in *.
    split.
    + apply (step_in_unit _ _ _ K0 K1 R).
    + unfold useFrame. cbn [material currentProgress]. rewrite M.
      eexists. split; reflexivity.
Qed.

Lemma progress_stays_in_unit_witness :
  let s := Scene.tree_frames 0.05
             [Scene.mkTick true 0 0.5; Scene.mkTick false 0.5 0.25]
             Scene.initial_tree in
  0 <= currentProgress s <= 1.
Proof.
  apply (progress_stays_in_unit 0.05).
  repeat constructor; simpl; lra.
Defined.

(** X11: no visual pop: whatever the target, one frame moves a progress value in
    [0, 1] by at most [1.5 * dt], and not at all when [dt] is 0 or the value
    already is the target. *)
Theorem progress_no_pop (isFormed : bool) (dt v : R) :
  0 <= dt -> 0 <= v <= 1 ->
  Rabs (step isFormed dt v - v) <= 1.5 * dt
  /\ step isFormed 0 v = v
  /\ step isFormed dt (target isFormed) = target isFormed.
Proof.
  intros Hd Hv. unfold step, MathUtils.lerp. repeat split.
  - apply Rabs_le. destruct isFormed; simpl; split; nra.
  - ring.
  - ring.
Qed.

Lemma progress_no_pop_witness :
  Rabs (step true 0.016 0.3 - 0.3) <= 1.5 * 0.016.
Proof.
  apply (progress_no_pop true 0.016 0.3); lra.
Defined.

Lemma total_delta_app (ticks : list Scene.tick) (k : Scene.tick) :
  Scene.total_delta (ticks ++ [k])
  = Scene.total_delta ticks + Scene.tick_delta k.
Proof.
  unfold Scene.total_delta. induction ticks as [|t ticks IH]; simpl.
  - ring.
  - rewrite IH. ring.
Qed.

(** X12: the group only ever turns forward, and by at most [spin] radians per
    second of frame time: after a run of such frames its y rotation lies
    between 0 and [spin] times the elapsed time. *)
Theorem tree_rotation_bounded (spin : R) (ticks : list Scene.tick) :
  0 <= spin -> Forall Scene.tame ticks ->
  exists ry,
    group_rotation_y (Scene.tree_frames spin ticks Scene.initial_tree) = Some ry
    /\ 0 <= ry <= spin * Scene.total_delta ticks.
Proof.
  intro Hs.
  assert (G : Forall Scene.tame ticks ->
              0 <= currentProgress
                     (Scene.tree_frames spin ticks Scene.initial_tree) <= 1
              /\ exists ry,
                   group_rotation_y
                     (Scene.tree_frames spin ticks Scene.initial_tree) = Some ry
                   /\ 0 <= ry <= spin * Scene.total_delta ticks).
  { induction ticks as [|k ticks IH] using rev_ind; intro T.
    - simpl. split; [lra|]. exists 0. split; [reflexivity | lra].
    - apply Forall_app in T. destruct T as [T Tk].
      inversion Tk as [|? ? [K0 K1] _]; subst.
      destruct (IH T) as [R (ry & Y & B)].
      rewrite tree_frames_app, total_delta_app.
      set (s := Scene.tree_frames spin ticks Scene.initial_tree) in *.
      pose proof (step_in_unit (Scene.tick_formed k) _ _ K0 K1 R) as P.
      split; [exact P|].
      unfold useFrame. cbn [group_rotation_y]. rewrite Y.
      eexists. split; [reflexivity|].
      fold (step (Scene.tick_formed k) (Scene.tick_delta k) (currentProgress s)).
      set (p := step (Scene.tick_formed k) (Scene.tick_delta k)
                  (currentProgress s)) in *.
      assert (0 <= Scene.tick_delta k * spin) by (apply Rmult_le_pos; lra).
      assert (0 <= Scene.tick_delta k * spin * p)
        by (apply Rmult_le_pos; lra).
      assert (Scene.tick_delta k * spin * p <= Scene.tick_delta k * spin) by nra.
      lra. }
  intro T. exact (proj2 (G T)).
Qed.

Lemma tree_rotation_bounded_witness :
  exists ry,
    group_rotation_y
      (Scene.tree_frames 0.1 [Scene.mkTick true 0 0.5] Scene.initial_tree)
    = Some ry
    /\ 0 <= ry <= 0.1 * Scene.total_delta [Scene.mkTick true 0 0.5].
Proof.
  apply (tree_rotation_bounded 0.1); [lra|].
  repeat constructor; simpl; lra.
Defined.

Lemma ln_100_bound : ln 100 <= 99.
Proof.
  left. rewrite <- (ln_exp 99). apply ln_increasing; [lra|].
  pose proof (exp_ineq1 99). lra.
Qed.

End LoopFacts.

(** ** CameraRig: runs of the camera loop *)

Section RigFacts.

Variable Quaternion : Type.
Variable lookAtQuaternion : Vector3 -> Vector3 -> Vector3 -> Quaternion.

Local Abbreviation camera := (App.camera Quaternion).
Local Abbreviation useFrame := (App.CameraRig_useFrame Quaternion lookAtQuaternion).
Local Abbreviation frames := (App.CameraRig_frames Quaternion).
Local Abbreviation pos := (App.position Quaternion).

Lemma lerp_between (x lo hi tg t : R) :
  0 <= t <= 1 -> lo <= x <= hi -> lo <= tg <= hi ->
  lo <= MathUtils.lerp x tg t <= hi.
Proof. intros Ht Hx Hg. unfold MathUtils.lerp. split; nra. Qed.

Lemma rig_frame_in_box (kx ky baseY lookY : R) (f : App.pointer * R)
    (c : camera) :
  0 <= kx -> 0 <= ky -> Scene.rig_tame f ->
  Scene.in_parallax_box kx ky baseY (pos c) ->
  Scene.in_parallax_box kx ky baseY
    (pos (useFrame kx ky baseY lookY (fst f) (snd f) c)).
Proof.
  intros Hx Hy ([[X0 X1] [Y0 Y1]] & D0 & D1) [BX BY].
  unfold App.CameraRig_useFrame, App.lookAt, Scene.in_parallax_box.
  cbn [App.position vx vy]. split.
  - apply lerp_between; [lra | exact BX | nra].
  - apply lerp_between; [lra | exact BY | nra].
Qed.

Lemma rig_frames_in_box (kx ky baseY lookY : R) (fs : list (App.pointer * R)) :
  0 <= kx -> 0 <= ky -> Forall Scene.rig_tame fs ->
  forall c : camera,
    Scene.in_parallax_box kx ky baseY (pos c) ->
    Scene.in_parallax_box kx ky baseY
      (pos (frames (useFrame kx ky baseY lookY) fs c)).
Proof.
  intros Hx Hy T. unfold App.CameraRig_frames.
  induction T as [|f fs Tf _ IH]; intros c B; [exact B|].
  simpl. apply IH. now apply rig_frame_in_box.
Qed.

(** X14: with pointer offsets in [-1, 1] and frame times of at most half a second
    the camera never leaves the box its targets span: x in [-6, 6] and y in
    [-1, 7] for App.tsx, x in [-5, 5] and y in [-1, 5] for the other copy,
    from the initial camera on. *)
Theorem camera_stays_in_parallax_box (fs : list (App.pointer * R))
    (q0 : Quaternion) :
  Forall Scene.rig_tame fs ->
  let a := pos (frames (App.CameraRig_boundary _ lookAtQuaternion) fs
                  (App.initial_camera _ 24 q0)) in
  let b := pos (frames (App.CameraRig_plain _ lookAtQuaternion) fs
                  (App.initial_camera _ 22 q0)) in
  (-6 <= vx a <= 6 /\ -1 <= vy a <= 7)
  /\ (-5 <= vx b <= 5 /\ -1 <= vy b <= 5).
Proof.
  intros T. cbv zeta. split.
  - pose proof (rig_frames_in_box 6 4 3 5 fs ltac:(lra) ltac:(lra) T
                  (App.initial_camera _ 24 q0)) as B.
    unfold Scene.in_parallax_box in B. simpl in B.
    unfold App.CameraRig_boundary.
    destruct B as [BX BY]; [lra|]. split; lra.
  - pose proof (rig_frames_in_box 5 3 2 4 fs ltac:(lra) ltac:(lra) T
                  (App.initial_camera _ 22 q0)) as B.
    unfold Scene.in_parallax_box in B. simpl in B.
    unfold App.CameraRig_plain.
    destruct B as [BX BY]; [lra|]. split; lra.
Qed.

(** X15: the view direction never degenerates: after any run of frames the
    camera is at neither look-at point and the direction from it to the
    look-at point is not along the up vector (0, 1, 0), because the camera
    keeps its depth of 24 (22). *)
Theorem camera_never_at_look_at (fs : list (App.pointer * R))
    (q0 : Quaternion) :
  let a := frames (App.CameraRig_boundary _ lookAtQuaternion) fs
             (App.initial_camera _ 24 q0) in
  let b := frames (App.CameraRig_plain _ lookAtQuaternion) fs
             (App.initial_camera _ 22 q0) in
  (pos a <> mkVector3 0 5 0 /\ pos b <> mkVector3 0 4 0)
  /\ (forall k, mkVector3 (0 - vx (pos a)) (5 - vy (pos a)) (0 - vz (pos a))
                <> mkVector3 0 k 0)
  /\ (forall k, mkVector3 (0 - vx (pos b)) (4 - vy (pos b)) (0 - vz (pos b))
                <> mkVector3 0 k 0)
  /\ App.up _ a = mkVector3 0 1 0 /\ App.up _ b = mkVector3 0 1 0.
Proof.
  cbv zeta.
  destruct (rig_frames_depth _ lookAtQuaternion 6 4 3 5 fs
              (App.initial_camera _ 24 q0)) as [Za Ua].
  destruct (rig_frames_depth _ lookAtQuaternion 5 3 2 4 fs
              (App.initial_camera _ 22 q0)) as [Zb Ub].
  cbv zeta in *. simpl in Za, Zb, Ua, Ub.
  unfold App.CameraRig_boundary, App.CameraRig_plain.
  repeat split; try assumption.
  - intro E. rewrite E in Za. simpl in Za. lra.
  - intro E. rewrite E in Zb. simpl in Zb. lra.
  - intros k E. apply (f_equal vz) in E. simpl in E. rewrite Za in E. lra.
  - intros k E. apply (f_equal vz) in E. simpl in E. rewrite Zb in E. lra.
Qed.

(** X16: under a constant pointer offset and frame time the camera closes in on
    its target geometrically: after [n] frames its x and y distances to the
    target are [(1 - 2 dt)^n] times the initial ones. *)
Theorem camera_converges (kx ky baseY lookY : R) (d : App.pointer) (dt : R)
    (n : nat) :
  forall c : camera,
    let c' := frames (useFrame kx ky baseY lookY) (repeat (d, dt) n) c in
    vx (pos c') - App.px d * kx
    = (1 - dt * 2) ^ n * (vx (pos c) - App.px d * kx)
    /\ vy (pos c') - (baseY + App.py d * ky)
       = (1 - dt * 2) ^ n * (vy (pos c) - (baseY + App.py d * ky)).
Proof.
  unfold App.CameraRig_frames.
  induction n as [|n IH]; intro c; cbv zeta.
  - simpl. split; ring.
  - cbn [repeat fold_left fst snd].
    destruct (IH (useFrame kx ky baseY lookY d dt c)) as [IHx IHy].
    cbv zeta in IHx, IHy. rewrite IHx, IHy.
    unfold App.CameraRig_useFrame, App.lookAt. cbn [App.position vx vy].
    rewrite !lerp_distance. simpl pow. split; ring.
Qed.

End RigFacts.

(** ** GrandTree: what the geometry block generates *)

Section PopulationFacts.

Import GrandTree.

Lemma loop_cursor {A : Type} (body : nat -> Random.Gen A) (g : Random.stream)
    (c : nat) :
  (forall i k, snd (body i g k) = (k + c)%nat) ->
  forall n i k, snd (Random.loop n i body g k) = (k + n * c)%nat.
Proof.
  intros Hc n. induction n as [|n IH]; intros i k; simpl.
  - lia.
  - unfold Random.bind, Random.ret.
    specialize (Hc i k). destruct (body i g k) as [a k1].
    specialize (IH (S i) k1).
    destruct (Random.loop n (S i) body g k1) as [rest k2].
    simpl in *. lia.
Qed.

Lemma loop_Forall_range {A : Type} (P : A -> Prop) (body : nat -> Random.Gen A)
    (g : Random.stream) :
  forall n i k,
    (forall j k', (i <= j < i + n)%nat -> P (fst (body j g k'))) ->
    Forall P (fst (Random.loop n i body g k)).
Proof.
  induction n as [|n IH]; intros i k HP; simpl.
  - constructor.
  - unfold Random.bind, Random.ret.
    pose proof (HP i k ltac:(lia)) as H0.
    destruct (body i g k) as [a k1].
    assert (F : Forall P (fst (Random.loop n (S i) body g k1))).
    { apply IH. intros j k' Hj. apply HP. lia. }
    destruct (Random.loop n (S i) body g k1) as [rest k2].
    simpl in *. constructor; assumption.
Qed.

Lemma polaroid_geometry_parts (g : Random.stream) (k : nat) :
  exists ns os ps k1 k2 k3,
    Random.loop Polaroid.PARTICLE_COUNT 0 (gen_needle 30) g k = (ns, k1)
    /\ Random.loop ORNAMENT_COUNT 0
         (gen_ornament 0.9 35 0.7 "#FF0000" "#FFD700") g k1 = (os, k2)
    /\ Random.loop Polaroid.POLAROID_COUNT 0 Polaroid.gen_polaroid g k2
       = (ps, k3)
    /\ Polaroid.geometry g k = (ns, os, ps, k3).
Proof.
  destruct (Random.loop Polaroid.PARTICLE_COUNT 0 (gen_needle 30) g k)
    as [ns k1] eqn:E1.
  destruct (Random.loop ORNAMENT_COUNT 0
              (gen_ornament 0.9 35 0.7 "#FF0000" "#FFD700") g k1)
    as [os k2] eqn:E2.
  destruct (Random.loop Polaroid.POLAROID_COUNT 0 Polaroid.gen_polaroid g k2)
    as [ps k3] eqn:E3.
  exists ns, os, ps, k1, k2, k3.
  split; [reflexivity|]. split; [exact E2|]. split; [exact E3|].
  unfold Polaroid.geometry, Random.bind, Random.ret.
  rewrite E1, E2, E3. reflexivity.
Qed.

Lemma cards_geometry_parts (g : Random.stream) (k : nat) :
  exists ns os cs k1 k2 k3,
    Random.loop Cards.PARTICLE_COUNT 0 (gen_needle 35) g k = (ns, k1)
    /\ Random.loop ORNAMENT_COUNT 0
         (gen_ornament 0.95 40 0.6 "#FFD700" "#8B0000") g k1 = (os, k2)
    /\ Random.loop Cards.CARD_COUNT 0 Cards.gen_card g k2 = (cs, k3)
    /\ Cards.geometry g k = (ns, os, cs, k3).
Proof.
  destruct (Random.loop Cards.PARTICLE_COUNT 0 (gen_needle 35) g k)
    as [ns k1] eqn:E1.
  destruct (Random.loop ORNAMENT_COUNT 0
              (gen_ornament 0.95 40 0.6 "#FFD700" "#8B0000") g k1)
    as [os k2] eqn:E2.
  destruct (Random.loop Cards.CARD_COUNT 0 Cards.gen_card g k2)
    as [cs k3] eqn:E3.
  exists ns, os, cs, k1, k2, k3.
  split; [reflexivity|]. split; [exact E2|]. split; [exact E3|].
  unfold Cards.geometry, Random.bind, Random.ret.
  rewrite E1, E2, E3. reflexivity.
Qed.

(** A loop that came out as [(l, k')]: its length, cursor and elements. *)
Lemma loop_result {A : Type} (P : A -> Prop) (body : nat -> Random.Gen A)
    (g : Random.stream) (c n i k k' : nat) (l : list A) :
  Random.loop n i body g k = (l, k') ->
  (forall j k0, snd (body j g k0) = (k0 + c)%nat) ->
  (forall j k0, (i <= j < i + n)%nat -> P (fst (body j g k0))) ->
  List.length l = n /\ k' = (k + n * c)%nat /\ Forall P l.
Proof.
  intros E Hc HP.
  pose proof (loop_length body g n i k) as L.
  pose proof (loop_cursor body g c Hc n i k) as C.
  pose proof (loop_Forall_range P body g n i k HP) as F.
  rewrite E in L, C, F. auto.
Qed.

Lemma gen_needle_cursor (spread : R) (g : Random.stream) (i k : nat) :
  snd (gen_needle spread i g k) = (k + 7)%nat.
Proof.
  unfold gen_needle, Random.bind, Random.random, Random.ret.
  cbn [snd]. rewrite Nat.add_comm. reflexivity.
Qed.

Lemma gen_ornament_cursor (shrink spread cut : R) (hi lo : string)
    (g : Random.stream) (i k : nat) :
  snd (gen_ornament shrink spread cut hi lo i g k) = (k + 6)%nat.
Proof.
  unfold gen_ornament, chaos_vector, Random.bind, Random.random, Random.ret.
  cbn [snd]. rewrite Nat.add_comm. reflexivity.
Qed.

Lemma gen_polaroid_cursor (g : Random.stream) (i k : nat) :
  snd (Polaroid.gen_polaroid i g k) = (k + 5)%nat.
Proof.
  unfold Polaroid.gen_polaroid, chaos_vector, Random.bind, Random.random, Random.ret.
  cbn [snd]. rewrite Nat.add_comm. reflexivity.
Qed.

Lemma gen_card_cursor (g : Random.stream) (i k : nat) :
  snd (Cards.gen_card i g k) = (k + 3)%nat.
Proof.
  unfold Cards.gen_card, chaos_vector, Random.bind, Random.random, Random.ret.
  cbn [snd]. rewrite Nat.add_comm. reflexivity.
Qed.

(** X17: the geometry block yields exactly [PARTICLE_COUNT] needles, 150
    ornaments and 12 polaroids (16 cards), and draws a fixed number of
    random values for them: 7 per needle, 6 per ornament, 5 per polaroid
    (3 per card). *)
Theorem geometry_population (g : Random.stream) (k : nat) :
  let p := Polaroid.geometry g k in
  let c := Cards.geometry g k in
  (List.length (fst (fst (fst p))) = Polaroid.PARTICLE_COUNT
   /\ List.length (snd (fst (fst p))) = ORNAMENT_COUNT
   /\ List.length (snd (fst p)) = Polaroid.POLAROID_COUNT
   /\ snd p = (k + Polaroid.PARTICLE_COUNT * 7 + ORNAMENT_COUNT * 6
               + Polaroid.POLAROID_COUNT * 5)%nat)
  /\ (List.length (fst (fst (fst c))) = Cards.PARTICLE_COUNT
      /\ List.length (snd (fst (fst c))) = ORNAMENT_COUNT
      /\ List.length (snd (fst c)) = Cards.CARD_COUNT
      /\ snd c = (k + Cards.PARTICLE_COUNT * 7 + ORNAMENT_COUNT * 6
                  + Cards.CARD_COUNT * 3)%nat).
Proof.
  cbv zeta.
  destruct (polaroid_geometry_parts g k)
    as (ns & os & ps & k1 & k2 & k3 & E1 & E2 & E3 & E).
  destruct (cards_geometry_parts g k)
    as (ns' & os' & cs & j1 & j2 & j3 & F1 & F2 & F3 & F).
  rewrite E, F. cbn [fst snd].
  destruct (loop_result (fun _ => True) _ g 7 _ _ _ _ _ E1
              (gen_needle_cursor _ g) (fun _ _ _ => I)) as (L1 & C1 & _).
  destruct (loop_result (fun _ => True) _ g 6 _ _ _ _ _ E2
              (gen_ornament_cursor _ _ _ _ _ g) (fun _ _ _ => I)) as (L2 & C2 & _).
  destruct (loop_result (fun _ => True) _ g 5 _ _ _ _ _ E3
              (gen_polaroid_cursor g) (fun _ _ _ => I)) as (L3 & C3 & _).
  destruct (loop_result (fun _ => True) _ g 7 _ _ _ _ _ F1
              (gen_needle_cursor _ g) (fun _ _ _ => I)) as (M1 & D1 & _).
  destruct (loop_result (fun _ => True) _ g 6 _ _ _ _ _ F2
              (gen_ornament_cursor _ _ _ _ _ g) (fun _ _ _ => I)) as (M2 & D2 & _).
  destruct (loop_result (fun _ => True) _ g 3 _ _ _ _ _ F3
              (gen_card_cursor g) (fun _ _ _ => I)) as (M3 & D3 & _).
  subst k1 k2 k3 j1 j2 j3.
  split; (split; [assumption|]; split; [assumption|]; split;
          [assumption | reflexivity]).
Qed.

Lemma chaos_vector_in_cube (spread : R) (g : Random.stream) (k : nat) :
  0 < spread -> Random.in_unit g ->
  let c := fst (chaos_vector spread g k) in
  - (spread / 2) <= vx c < spread / 2
  /\ - (spread / 2) <= vy c < spread / 2
  /\ - (spread / 2) <= vz c < spread / 2.
Proof.
  intros Hs U. cbv zeta. simpl.
  pose proof (U k). pose proof (U (S k)). pose proof (U (S (S k))).
  repeat split; nra.
Qed.

Lemma rounded_between (fround : R -> R) (lo hi v : R) :
  (forall x y, x <= y -> fround x <= fround y) ->
  fround lo = lo -> fround hi = hi -> lo <= v <= hi ->
  lo <= fround v <= hi.
Proof.
  intros M L H [V0 V1].
  pose proof (M _ _ V0) as A. pose proof (M _ _ V1) as B.
  rewrite L in A. rewrite H in B. split; assumption.
Qed.

Lemma gen_needle_stored (fround : R -> R) (spread : R) (g : Random.stream)
    (i k : nat) :
  0 < spread -> Random.in_unit g ->
  Scene.store_rounding fround [- (spread / 2); spread / 2; 0; 1; -7; 11] ->
  Scene.stored_in_cube fround (spread / 2) (fst (gen_needle spread i g k)).
Proof.
  intros Hs U [M E].
  inversion E as [|? ? E1 E']; subst. inversion E' as [|? ? E2 E'']; subst.
  inversion E'' as [|? ? E3 E3']; subst. inversion E3' as [|? ? E4 E4']; subst.
  inversion E4' as [|? ? E5 E5']; subst. inversion E5' as [|? ? E6 _]; subst.
  unfold Scene.stored_in_cube. simpl.
  pose proof (U k). pose proof (U (3 + k)%nat) as U3.
  pose proof (U (4 + k)%nat) as U4. pose proof (U (5 + k)%nat) as U5.
  pose proof (U (6 + k)%nat) as U6. simpl in U3, U4, U5, U6.
  unfold TREE_HEIGHT.
  split; [split; [|split] | split];
    apply rounded_between; try assumption; nra.
Qed.

(** X18: every needle, as its [Float32Array] slots hold it, has its dispersed
    position in the closed cube of side 30 (35 in the card copy) around the
    origin, its random phase in [0, 1] and its stored height in [-7, 11].
    The store's rounding [fround] is any non-decreasing map that is exact on
    the bounds; the bounds are closed because rounding can land on them. *)
Theorem needles_dispersed_in_cube (fround : R -> R) (g : Random.stream)
    (k : nat) (nd : needle) :
  Random.in_unit g ->
  (Scene.store_rounding fround [- (30 / 2); 30 / 2; 0; 1; -7; 11] ->
   In nd (fst (fst (fst (Polaroid.geometry g k)))) ->
   (-15 <= fround (vx (chaosPositions nd)) <= 15
    /\ -15 <= fround (vy (chaosPositions nd)) <= 15
    /\ -15 <= fround (vz (chaosPositions nd)) <= 15)
   /\ 0 <= fround (randoms nd) <= 1
   /\ -7 <= fround (vy (positions nd)) <= 11)
  /\ (Scene.store_rounding fround [- (35 / 2); 35 / 2; 0; 1; -7; 11] ->
      In nd (fst (fst (fst (Cards.geometry g k)))) ->
      (-17.5 <= fround (vx (chaosPositions nd)) <= 17.5
       /\ -17.5 <= fround (vy (chaosPositions nd)) <= 17.5
       /\ -17.5 <= fround (vz (chaosPositions nd)) <= 17.5)
      /\ 0 <= fround (randoms nd) <= 1
      /\ -7 <= fround (vy (positions nd)) <= 11).
Proof.
  intro U. split; intros S I.
  - rewrite polaroid_geometry_needles in I.
    pose proof (loop_Forall (Scene.stored_in_cube fround (30 / 2))
                  (gen_needle 30) g
                  (fun i k' => gen_needle_stored fround 30 g i k'
                                 ltac:(lra) U S)
                  Polaroid.PARTICLE_COUNT 0%nat k) as F.
    rewrite Forall_forall in F. specialize (F nd I).
    unfold Scene.stored_in_cube in F.
    replace (30 / 2) with 15 in F by lra. intuition lra.
  - rewrite cards_geometry_needles in I.
    pose proof (loop_Forall (Scene.stored_in_cube fround (35 / 2))
                  (gen_needle 35) g
                  (fun i k' => gen_needle_stored fround 35 g i k'
                                 ltac:(lra) U S)
                  Cards.PARTICLE_COUNT 0%nat k) as F.
    rewrite Forall_forall in F. specialize (F nd I).
    unfold Scene.stored_in_cube in F.
    replace (35 / 2) with 17.5 in F by lra. intuition lra.
Qed.

Lemma needles_dispersed_in_cube_witness :
  let nd := fst (gen_needle 30 0%nat (fun _ => 0) 0%nat) in
  0 <= randoms nd <= 1.
Proof.
  intro nd.
  assert (U : Random.in_unit (fun _ => 0)) by (intro k; lra).
  apply (proj1 (needles_dispersed_in_cube (fun x => x) (fun _ => 0) 0%nat
                  nd U)).
  - split; [intros x y H; exact H|]. repeat constructor.
  - rewrite polaroid_geometry_needles. apply loop_head.
    apply Nat.ltb_lt. vm_compute. reflexivity.
Defined.

Lemma radial_on_cone (rho angle y : R) :
  0 <= rho -> radial (on_cone rho angle y) = rho.
Proof. intro H. unfold on_cone. now apply radial_polar. Qed.

Lemma gen_ornament_on_cone (shrink spread cut : R) (hi lo : string)
    (g : Random.stream) (i k : nat) :
  0 <= shrink -> Random.in_unit g ->
  let o := fst (gen_ornament shrink spread cut hi lo i g k) in
  let y := generation_height (target o) in
  0 <= y < 18
  /\ radial (target o) = shrink * (7 * (1 - y / 18))
  /\ rotation o = None
  /\ (color o = Some hi \/ color o = Some lo).
Proof.
  intros Hs U. cbv zeta. simpl.
  pose proof (U k) as Hu.
  unfold generation_height, on_cone; cbn [vy].
  fold (on_cone ((1 - g k * TREE_HEIGHT / TREE_HEIGHT) * TREE_RADIUS * shrink)
          (g (S k) * PI * 2) (g k * TREE_HEIGHT)).
  unfold TREE_HEIGHT, TREE_RADIUS in *.
  rewrite radial_on_cone by (apply Rmult_le_pos; [nra | exact Hs]).
  split; [lra|]. split; [field|]. split; [reflexivity|].
  destruct (Rgtb _ cut); auto.
Qed.

(** X19: every ornament sits on the cone shrunk by 0.9 (0.95 in the card copy),
    hence inside the foliage cone: at its generation height [y] in [0, 18)
    its distance from the axis is that factor times [7 (1 - y / 18)]; it has
    no assembled rotation and one of the copy's two colours. *)
Theorem ornaments_inside_cone (g : Random.stream) (k : nat) (o : item) :
  Random.in_unit g ->
  let y := generation_height (target o) in
  (In o (snd (fst (fst (Polaroid.geometry g k)))) ->
   0 <= y < 18 /\ radial (target o) = 0.9 * (7 * (1 - y / 18))
   /\ rotation o = None
   /\ (color o = Some "#FF0000"%string \/ color o = Some "#FFD700"%string))
  /\ (In o (snd (fst (fst (Cards.geometry g k)))) ->
      0 <= y < 18 /\ radial (target o) = 0.95 * (7 * (1 - y / 18))
      /\ rotation o = None
      /\ (color o = Some "#FFD700"%string \/ color o = Some "#8B0000"%string)).
Proof.
  intros U. cbv zeta. split; intro I.
  - destruct (polaroid_geometry_parts g k)
      as (ns & os & ps & k1 & k2 & k3 & E1 & E2 & E3 & E).
    rewrite E in I. cbn [fst snd] in I.
    destruct (loop_result
                (fun o => let y := generation_height (target o) in
                   0 <= y < 18 /\ radial (target o) = 0.9 * (7 * (1 - y / 18))
                   /\ rotation o = None
                   /\ (color o = Some "#FF0000"%string
                       \/ color o = Some "#FFD700"%string))
                _ g 6 _ _ _ _ _ E2 (gen_ornament_cursor _ _ _ _ _ g))
      as (_ & _ & F).
    + intros j k0 _.
      apply (gen_ornament_on_cone 0.9 35 0.7 _ _ g j k0); [lra | exact U].
    + rewrite Forall_forall in F. exact (F o I).
  - destruct (cards_geometry_parts g k)
      as (ns & os & cs & k1 & k2 & k3 & E1 & E2 & E3 & E).
    rewrite E in I. cbn [fst snd] in I.
    destruct (loop_result
                (fun o => let y := generation_height (target o) in
                   0 <= y < 18 /\ radial (target o) = 0.95 * (7 * (1 - y / 18))
                   /\ rotation o = None
                   /\ (color o = Some "#FFD700"%string
                       \/ color o = Some "#8B0000"%string))
                _ g 6 _ _ _ _ _ E2 (gen_ornament_cursor _ _ _ _ _ g))
      as (_ & _ & F).
    + intros j k0 _.
      apply (gen_ornament_on_cone 0.95 40 0.6 _ _ g j k0); [lra | exact U].
    + rewrite Forall_forall in F. exact (F o I).
Qed.

Lemma ornaments_inside_cone_witness :
  exists o,
    In o (snd (fst (fst (Polaroid.geometry (fun _ => 0) 0%nat))))
    /\ rotation o = None.
Proof.
  assert (U : Random.in_unit (fun _ => 0)) by (intro k; lra).
  destruct (polaroid_geometry_parts (fun _ => 0) 0%nat)
    as (ns & os & ps & k1 & k2 & k3 & E1 & E2 & E3 & E).
  pose proof (loop_head (gen_ornament 0.9 35 0.7 "#FF0000" "#FFD700")
                (fun _ => 0) ORNAMENT_COUNT 0%nat k1) as H.
  rewrite E2 in H. cbn [fst] in H.
  assert (I : In (fst (gen_ornament 0.9 35 0.7 "#FF0000" "#FFD700" 0%nat
                         (fun _ => 0) k1))
                (snd (fst (fst (Polaroid.geometry (fun _ => 0) 0%nat))))).
  { rewrite E. cbn [fst snd]. apply H. unfold ORNAMENT_COUNT. lia. }
  eexists. split; [exact I|].
  apply (proj1 (ornaments_inside_cone (fun _ => 0) 0%nat _ U) I).
Defined.

End PopulationFacts.

(** ** GrandTree: cards, polaroids and the motion of an item *)

Section CardFacts.

Import GrandTree.

Lemma on_cone_height (rho angle y : R) :
  generation_height (on_cone rho angle y) = y.
Proof. unfold generation_height, on_cone, TREE_HEIGHT. simpl. lra. Qed.

Lemma gen_card_outside (g : Random.stream) (i k : nat) :
  (i < Cards.CARD_COUNT)%nat ->
  let c := fst (Cards.gen_card i g k) in
  let y := generation_height (target c) in
  2 <= y < 14.6
  /\ radial (target c) = 1.2 * (7 * (1 - y / 18))
  /\ exists r, rotation c = Some r /\ vx r = 0 /\ vz r = 0.
Proof.
  intros Hi. cbv zeta.
  unfold Cards.gen_card, chaos_vector, Random.bind, Random.random, Random.ret.
  cbn [fst target rotation].
  assert (I0 : 0 <= INR i) by apply pos_INR.
  assert (I1 : INR i <= 15).
  { replace 15 with (INR 15) by (rewrite INR_IZR_INZ; reflexivity).
    apply le_INR. unfold Cards.CARD_COUNT in Hi. lia. }
  assert (C : INR Cards.CARD_COUNT = 16)
    by (unfold Cards.CARD_COUNT; rewrite INR_IZR_INZ; reflexivity).
  rewrite C, !on_cone_height.
  unfold TREE_HEIGHT, TREE_RADIUS.
  rewrite radial_on_cone by (apply Rmult_le_pos; [nra | lra]).
  split; [lra|]. split; [field|].
  eexists. split; [reflexivity|]. split; reflexivity.
Qed.

Lemma gen_polaroid_outside (g : Random.stream) (i k : nat) :
  Random.in_unit g ->
  let c := fst (Polaroid.gen_polaroid i g k) in
  let y := generation_height (target c) in
  2 <= y < 14.6
  /\ radial (target c) = 1.1 * (7 * (1 - y / 18))
  /\ exists r, rotation c = Some r /\ vx r = 0 /\ -0.2 <= vz r < 0.2.
Proof.
  intros U. cbv zeta.
  unfold Polaroid.gen_polaroid, chaos_vector, Random.bind, Random.random,
    Random.ret.
  cbn [fst target rotation].
  pose proof (U k) as Hu. pose proof (U (S (S (S (S k))))) as Hz.
  rewrite !on_cone_height.
  unfold TREE_HEIGHT, TREE_RADIUS.
  rewrite radial_on_cone by (apply Rmult_le_pos; [nra | lra]).
  split; [lra|]. split; [field|].
  eexists. split; [reflexivity|]. cbn [vx vz]. split; lra.
Qed.

(** X20: every card hangs outside the foliage cone, at 1.2 times the cone's
    radius at its height (polaroids: 1.1 times), at a generation height in
    [2, 14.6), and carries an assembled rotation with no tilt about x; cards
    have no roll about z, polaroids a roll within 0.2 rad. *)
Theorem cards_outside_cone (g : Random.stream) (k : nat) (c : item) :
  Random.in_unit g ->
  let y := generation_height (target c) in
  (In c (snd (fst (Cards.geometry g k))) ->
   2 <= y < 14.6
   /\ radial (target c) = 1.2 * (7 * (1 - y / 18))
   /\ 7 * (1 - y / 18) < radial (target c)
   /\ exists r, rotation c = Some r /\ vx r = 0 /\ vz r = 0)
  /\ (In c (snd (fst (Polaroid.geometry g k))) ->
      2 <= y < 14.6
      /\ radial (target c) = 1.1 * (7 * (1 - y / 18))
      /\ 7 * (1 - y / 18) < radial (target c)
      /\ exists r, rotation c = Some r /\ vx r = 0 /\ -0.2 <= vz r < 0.2).
Proof.
  intros U. cbv zeta. split; intro I.
  - destruct (cards_geometry_parts g k)
      as (ns & os & cs & k1 & k2 & k3 & E1 & E2 & E3 & E).
    rewrite E in I. cbn [fst snd] in I.
    destruct (loop_result
                (fun c => let y := generation_height (target c) in
                   2 <= y < 14.6
                   /\ radial (target c) = 1.2 * (7 * (1 - y / 18))
                   /\ exists r, rotation c = Some r /\ vx r = 0 /\ vz r = 0)
                _ g 3 _ _ _ _ _ E3 (gen_card_cursor g))
      as (_ & _ & F).
    + intros j k0 Hj. apply gen_card_outside. lia.
    + rewrite Forall_forall in F. destruct (F c I) as (Y & Rd & Rot).
      split; [exact Y|]. split; [exact Rd|]. split; [lra | exact Rot].
  - destruct (polaroid_geometry_parts g k)
      as (ns & os & ps & k1 & k2 & k3 & E1 & E2 & E3 & E).
    rewrite E in I. cbn [fst snd] in I.
    destruct (loop_result
                (fun c => let y := generation_height (target c) in
                   2 <= y < 14.6
                   /\ radial (target c) = 1.1 * (7 * (1 - y / 18))
                   /\ exists r, rotation c = Some r /\ vx r = 0
                                /\ -0.2 <= vz r < 0.2)
                _ g 5 _ _ _ _ _ E3 (gen_polaroid_cursor g))
      as (_ & _ & F).
    + intros j k0 _. now apply gen_polaroid_outside.
    + rewrite Forall_forall in F. destruct (F c I) as (Y & Rd & Rot).
      split; [exact Y|]. split; [exact Rd|]. split; [lra | exact Rot].
Qed.

Lemma cards_outside_cone_witness :
  exists c,
    In c (snd (fst (Cards.geometry (fun _ => 0) 0%nat)))
    /\ 2 <= generation_height (target c) < 14.6.
Proof.
  assert (U : Random.in_unit (fun _ => 0)) by (intro k; lra).
  destruct (cards_geometry_parts (fun _ => 0) 0%nat)
    as (ns & os & cs & k1 & k2 & k3 & E1 & E2 & E3 & E).
  pose proof (loop_head Cards.gen_card (fun _ => 0) Cards.CARD_COUNT
                0%nat k2) as H.
  rewrite E3 in H. cbn [fst] in H.
  assert (I : In (fst (Cards.gen_card 0%nat (fun _ => 0) k2))
                (snd (fst (Cards.geometry (fun _ => 0) 0%nat)))).
  { rewrite E. cbn [fst snd]. apply H. unfold Cards.CARD_COUNT. lia. }
  eexists. split; [exact I|].
  apply (proj1 (cards_outside_cone (fun _ => 0) 0%nat _ U) I).
Defined.

Lemma lerpVectors_0 (a b : Vector3) : lerpVectors a b 0 = a.
Proof. destruct a; unfold lerpVectors; simpl. f_equal; ring. Qed.

Lemma lerpVectors_1 (a b : Vector3) : lerpVectors a b 1 = b.
Proof. destruct a, b; unfold lerpVectors; simpl. f_equal; ring. Qed.

Lemma smoothT_ends : Easing.smoothT 0 = 0 /\ Easing.smoothT 1 = 1.
Proof. unfold Easing.smoothT, pow3. simpl. split; lra. Qed.

Lemma smoothT_unit (t : R) : 0 <= t <= 1 -> 0 <= Easing.smoothT t <= 1.
Proof.
  intros Ht. unfold Easing.smoothT, pow3.
  assert (0 <= (1 - t) ^ 3) by (apply pow_le; lra).
  assert ((1 - t) ^ 3 <= 1 ^ 3) by (apply pow_incr; lra).
  rewrite pow1 in *. lra.
Qed.

(** X21: the ends of an item's motion.  At progress 0 both copies put the item at
    its dispersed position.  At progress 1 the polaroid copy puts it at its
    assembled position with its assembled rotation; the card copy gives the
    assembled rotation and the assembled x and z, with the height within
    0.002 of the assembled one. *)
Theorem item_endpoints (it : item) (w : world) (o : Object3D) :
  (progress w = 0 ->
   (forall g k, fst (FloatingItem_polaroid it w g k) = Some o ->
                obj_position o = chaos it)
   /\ (FloatingItem_card it w = Some o -> obj_position o = chaos it))
  /\ (progress w = 1 ->
      (forall g k, fst (FloatingItem_polaroid it w g k) = Some o ->
                   obj_position o = target it
                   /\ forall fr, rotation it = Some fr -> obj_rotation o = fr)
      /\ (FloatingItem_card it w = Some o ->
          vx (obj_position o) = vx (target it)
          /\ vz (obj_position o) = vz (target it)
          /\ Rabs (vy (obj_position o) - vy (target it)) <= 0.002
          /\ forall fr, rotation it = Some fr -> obj_rotation o = fr)).
Proof.
  destruct smoothT_ends as [S0 S1].
  split; intro P; split.
  - intros g k E. destruct (polaroid_frame _ _ _ _ _ E) as [Q _].
    now rewrite Q, P, S0, lerpVectors_0.
  - intro E. destruct (card_frame _ _ _ E) as (X & Z & L & _).
    cbv zeta in *. rewrite P, S0, lerpVectors_0 in *.
    specialize (L ltac:(lra)).
    destruct (obj_position o), (chaos it). simpl in *. now subst.
  - intros g k E. destruct (polaroid_frame _ _ _ _ _ E) as [Q Rt].
    split; [now rewrite Q, P, S1, lerpVectors_1|].
    intros fr F. rewrite (Rt fr F), P, S1. unfold MathUtils.lerp.
    destruct fr; simpl. f_equal; ring.
  - intro E. destruct (card_frame _ _ _ E) as (X & Z & _ & G & Rt).
    cbv zeta in *. rewrite P, S1, lerpVectors_1 in *.
    specialize (G ltac:(lra)).
    split; [exact X|]. split; [exact Z|]. split.
    + rewrite G.
      pose proof (SIN_bound (elapsedTime w * 2 + vx (chaos it))) as [B0 B1].
      apply Rabs_le. lra.
    + intros fr F. rewrite (Rt fr F). unfold MathUtils.lerp.
      destruct fr; simpl. f_equal; ring.
Qed.

Lemma item_endpoints_witness :
  let z := mkVector3 0 0 0 in
  let it := {| target := mkVector3 1 2 3; chaos := z; rotation := Some z;
               color := None |} in
  let w := {| elapsedTime := 0; progress := 1;
              current := Some (mkObject3D z z) |} in
  exists o, FloatingItem_card it w = Some o
            /\ vx (obj_position o) = 1.
Proof.
  intros z it w.
  destruct (FloatingItem_card it w) as [o|] eqn:E; [|discriminate E].
  exists o. split; [reflexivity|].
  destruct (proj2 (item_endpoints it w o) eq_refl) as [_ C].
  exact (proj1 (C E)).
Defined.

Lemma coordinate_between (a b s : R) :
  0 <= s <= 1 -> Rmin a b <= a + (b - a) * s <= Rmax a b.
Proof.
  intros Hs. unfold Rmin, Rmax. destruct (Rle_dec a b); split; nra.
Qed.

(** X22: between the ends an item stays on its path: for a progress in [0, 1]
    every coordinate of the polaroid copy's position lies between the
    dispersed and the assembled coordinate; the card copy's x and z do too,
    and its height is within 0.002 of such a value. *)
Theorem item_stays_on_path (it : item) (w : world) (o : Object3D) :
  0 <= progress w <= 1 ->
  (forall g k, fst (FloatingItem_polaroid it w g k) = Some o ->
     Rmin (vx (chaos it)) (vx (target it)) <= vx (obj_position o)
       <= Rmax (vx (chaos it)) (vx (target it))
     /\ Rmin (vy (chaos it)) (vy (target it)) <= vy (obj_position o)
          <= Rmax (vy (chaos it)) (vy (target it))
     /\ Rmin (vz (chaos it)) (vz (target it)) <= vz (obj_position o)
          <= Rmax (vz (chaos it)) (vz (target it)))
  /\ (FloatingItem_card it w = Some o ->
      Rmin (vx (chaos it)) (vx (target it)) <= vx (obj_position o)
        <= Rmax (vx (chaos it)) (vx (target it))
      /\ Rmin (vy (chaos it)) (vy (target it)) - 0.002 <= vy (obj_position o)
           <= Rmax (vy (chaos it)) (vy (target it)) + 0.002
      /\ Rmin (vz (chaos it)) (vz (target it)) <= vz (obj_position o)
           <= Rmax (vz (chaos it)) (vz (target it))).
Proof.
  intro P. pose proof (smoothT_unit _ P) as S.
  pose proof (coordinate_between (vx (chaos it)) (vx (target it)) _ S) as BX.
  pose proof (coordinate_between (vy (chaos it)) (vy (target it)) _ S) as BY.
  pose proof (coordinate_between (vz (chaos it)) (vz (target it)) _ S) as BZ.
  split.
  - intros g k E. destruct (polaroid_frame _ _ _ _ _ E) as [Q _].
    rewrite Q. unfold lerpVectors. simpl. auto.
  - intro E. destruct (card_frame _ _ _ E) as (X & Z & L & G & _).
    cbv zeta in *. unfold lerpVectors in X, Z, L, G. simpl in X, Z, L, G.
    rewrite X, Z. split; [exact BX|]. split; [|exact BZ].
    destruct (Rle_or_lt (progress w) 0.9) as [Le|Gt].
    + rewrite (L Le). lra.
    + rewrite (G Gt).
      pose proof (SIN_bound (elapsedTime w * 2 + vx (chaos it))) as [B0 B1].
      lra.
Qed.

Lemma item_stays_on_path_witness :
  let z := mkVector3 0 0 0 in
  let it := {| target := mkVector3 1 2 3; chaos := z; rotation := None;
               color := None |} in
  let w := {| elapsedTime := 7; progress := 0.95;
              current := Some (mkObject3D z z) |} in
  exists o, FloatingItem_card it w = Some o
            /\ Rmin 0 2 - 0.002 <= vy (obj_position o) <= Rmax 0 2 + 0.002.
Proof.
  intros z it w.
  destruct (FloatingItem_card it w) as [o|] eqn:E; [|discriminate E].
  exists o. split; [reflexivity|].
  assert (P : 0 <= progress w <= 1) by (simpl; lra).
  exact (proj1 (proj2 (proj2 (item_stays_on_path it w o P) E))).
Defined.

End CardFacts.

(** ** TreeMaterials: the vertex and fragment shaders *)

Section MaterialFacts.

Import TreeMaterials.

Lemma easeOutCubic_unit (p : R) : 0 <= p <= 1 -> 0 <= Easing.easeOutCubic p <= 1.
Proof.
  intros Hp. unfold Easing.easeOutCubic, pow3.
  assert (0 <= (1 - p) ^ 3) by (apply pow_le; lra).
  assert ((1 - p) ^ 3 <= 1 ^ 3) by (apply pow_incr; lra).
  rewrite pow1 in *. lra.
Qed.

Lemma transform_identity (v : Vector4) : transform identity4 v = v.
Proof.
  destruct v. unfold transform, identity4, dot4. simpl. f_equal; ring.
Qed.

Lemma drift_bound (s t : R) :
  -1 <= s <= 1 -> 0 <= t <= 1 -> Rabs (s * 0.5 * (1 - t) * (1 - t)) <= 0.5.
Proof.
  intros Hs Ht. apply Rabs_le.
  assert (0 <= (1 - t) * (1 - t) <= 1) by nra.
  split; nra.
Qed.

(** X23: the blended vertex.  Fully assembled ([uProgress = 1]) a needle is drawn
    exactly at its assembled position, whatever the clock and its dispersed
    position are.  For any progress in [0, 1] the ambient drift moves each
    coordinate by at most 0.5 off the straight blend of the dispersed and the
    assembled coordinate (stated under the identity model-view matrix). *)
Theorem vertex_blend (u : shader_uniforms) (a : attributes) :
  (uProgress u = 1 ->
   mvPosition u a
   = transform (modelViewMatrix u)
       (mkVector4 (vx (aTargetPos a)) (vy (aTargetPos a))
          (vz (aTargetPos a)) 1))
  /\ (modelViewMatrix u = identity4 -> 0 <= uProgress u <= 1 ->
      let t := Easing.easeOutCubic (uProgress u) in
      let mv := mvPosition u a in
      Rabs (wx mv - mix (vx (aChaosPos a)) (vx (aTargetPos a)) t) <= 0.5
      /\ Rabs (wy mv - mix (vy (aChaosPos a)) (vy (aTargetPos a)) t) <= 0.5
      /\ Rabs (wz mv - mix (vz (aChaosPos a)) (vz (aTargetPos a)) t) <= 0.5
      /\ ww mv = 1).
Proof.
  split.
  - intro P. unfold mvPosition. rewrite P.
    assert (E : Easing.easeOutCubic 1 = 1)
      by (unfold Easing.easeOutCubic, pow3; simpl; lra).
    rewrite E. unfold mix3, mix. cbn [vx vy vz]. f_equal. f_equal; ring.
  - intros M P. cbv zeta. unfold mvPosition. rewrite M, transform_identity.
    pose proof (easeOutCubic_unit _ P) as T.
    set (t := Easing.easeOutCubic (uProgress u)) in *.
    unfold mix3, mix. cbn [wx wy wz ww vx vy vz].
    pose proof (SIN_bound (uTime u * 0.5 + vy (aChaosPos a))) as S1.
    pose proof (COS_bound (uTime u * 0.3 + vx (aChaosPos a))) as S2.
    pose proof (SIN_bound (uTime u * 0.7 + vz (aChaosPos a))) as S3.
    repeat split.
    + match goal with |- Rabs ?e <= _ =>
        replace e with (sin (uTime u * 0.5 + vy (aChaosPos a)) * 0.5
                        * (1 - t) * (1 - t)) by ring end.
      now apply drift_bound.
    + match goal with |- Rabs ?e <= _ =>
        replace e with (cos (uTime u * 0.3 + vx (aChaosPos a)) * 0.5
                        * (1 - t) * (1 - t)) by ring end.
      now apply drift_bound.
    + match goal with |- Rabs ?e <= _ =>
        replace e with (sin (uTime u * 0.7 + vz (aChaosPos a)) * 0.5
                        * (1 - t) * (1 - t)) by ring end.
      now apply drift_bound.
Qed.

Lemma vertex_blend_witness :
  let u := {| uProgress := 1; uTime := 3; modelViewMatrix := identity4;
              projectionMatrix := identity4 |} in
  let a := {| aChaosPos := mkVector3 9 9 9; aTargetPos := mkVector3 1 2 3;
              aRandom := 0.5 |} in
  mvPosition u a = transform identity4 (mkVector4 1 2 3 1).
Proof.
  intros u a. apply (proj1 (vertex_blend u a)). reflexivity.
Defined.

(** X24: the point size by the side of the camera plane.  In front of the camera
    (view depth [d > 0]), for a phase and a progress in [0, 1], the unclamped
    copy yields a size in (0, 10 / d] and the clamped copy one in
    [2, max 2 (12.1 / d)]; behind the camera the unclamped copy yields a
    negative size and the clamped copy exactly 2. *)
Theorem point_size_bounds (u : shader_uniforms) (a : attributes) :
  0 <= aRandom a <= 1 -> 0 <= uProgress u <= 1 ->
  let d := - wz (mvPosition u a) in
  (0 < d ->
   0 < gl_PointSize (main_unclamped u a) <= 10 / d
   /\ 2 <= gl_PointSize (main_clamped u a) <= Rmax 2 (12.1 / d))
  /\ (d < 0 ->
      gl_PointSize (main_unclamped u a) < 0
      /\ gl_PointSize (main_clamped u a) = 2).
Proof.
  intros Ha Hp. cbv zeta.
  pose proof (easeOutCubic_unit _ Hp) as T.
  unfold main_unclamped, main_clamped. cbn [gl_PointSize].
  set (t := Easing.easeOutCubic (uProgress u)) in *.
  set (d := - wz (mvPosition u a)).
  split; intro D.
  - assert (I : 0 < 1 / d) by (apply Rdiv_lt_0_compat; lra).
    assert (U0 : 0 < (6 * aRandom a + 4) * (0.5 + 0.5 * t)) by nra.
    assert (U1 : (6 * aRandom a + 4) * (0.5 + 0.5 * t) <= 10) by nra.
    assert (C0 : 0 < (6 * aRandom a + 5) * (0.5 + 0.6 * t)) by nra.
    assert (C1 : (6 * aRandom a + 5) * (0.5 + 0.6 * t) <= 12.1) by nra.
    split.
    + replace ((6 * aRandom a + 4) * (1 / d) * (0.5 + 0.5 * t))
        with ((6 * aRandom a + 4) * (0.5 + 0.5 * t) * (1 / d)) by ring.
      replace (10 / d) with (10 * (1 / d)) by (unfold Rdiv; ring).
      split; nra.
    + replace ((6 * aRandom a + 5) * (1 / d) * (0.5 + 0.6 * t))
        with ((6 * aRandom a + 5) * (0.5 + 0.6 * t) * (1 / d)) by ring.
      replace (12.1 / d) with (12.1 * (1 / d)) by (unfold Rdiv; ring).
      assert ((6 * aRandom a + 5) * (0.5 + 0.6 * t) * (1 / d)
              <= 12.1 * (1 / d)) by nra.
      pose proof (Rmax_l 2 (12.1 * (1 / d))).
      pose proof (Rmax_r 2 (12.1 * (1 / d))).
      match goal with |- context [Rlt_dec ?s 2] => destruct (Rlt_dec s 2) end;
        split; lra.
  - assert (I : 1 / d < 0).
    { unfold Rdiv. rewrite Rmult_1_l. now apply Rinv_lt_0_compat. }
    assert (U0 : 0 < (6 * aRandom a + 4) * (0.5 + 0.5 * t)) by nra.
    assert (C0 : 0 < (6 * aRandom a + 5) * (0.5 + 0.6 * t)) by nra.
    split.
    + replace ((6 * aRandom a + 4) * (1 / d) * (0.5 + 0.5 * t))
        with ((6 * aRandom a + 4) * (0.5 + 0.5 * t) * (1 / d)) by ring.
      nra.
    + assert ((6 * aRandom a + 5) * (1 / d) * (0.5 + 0.6 * t) < 0).
      { replace ((6 * aRandom a + 5) * (1 / d) * (0.5 + 0.6 * t))
          with ((6 * aRandom a + 5) * (0.5 + 0.6 * t) * (1 / d)) by ring.
        nra. }
      match goal with |- context [Rlt_dec ?s 2] => destruct (Rlt_dec s 2) end;
        lra.
Qed.

Lemma point_size_bounds_witness :
  let m := {| row1 := mkVector4 1 0 0 0; row2 := mkVector4 0 1 0 (-4);
              row3 := mkVector4 0 0 1 (-22); row4 := mkVector4 0 0 0 1 |} in
  let u := {| uProgress := 1; uTime := 0; modelViewMatrix := m;
              projectionMatrix := identity4 |} in
  let a := {| aChaosPos := mkVector3 10 (-3) 5;
              aTargetPos := mkVector3 0 0 0; aRandom := 0 |} in
  2 <= gl_PointSize (main_clamped u a).
Proof.
  intros m u a.
  assert (D : wz (mvPosition u a) = -22)
    by (apply (view_depth_at_origin m); reflexivity).
  destruct (point_size_bounds u a) as [F _].
  - simpl. lra.
  - simpl. lra.
  - apply F. rewrite D. lra.
Defined.

Import Fragment.

Lemma length2_nonneg (v : Vector2) : 0 <= length2 v.
Proof. apply sqrt_pos. Qed.

(** X25: the fragment shaders draw a disc: a fragment is discarded exactly when it
    is farther than 0.5 from the centre of the point.  A kept fragment is
    never darker than the blend of the two colours: the sparkle copy adds 0.6
    to each channel within 0.15 of the centre and nothing elsewhere, the
    highlight copy adds an amount in [0, 0.2]. *)
Theorem fragment_disc (u : colors) (vRandom : R) (p : Vector2) :
  let r := distance2 p (mkVector2 0.5 0.5) in
  (main_sparkle u vRandom p = None <-> 0.5 < r)
  /\ (main_highlight u vRandom p = None <-> 0.5 < r)
  /\ (forall c, main_sparkle u vRandom p = Some c ->
        let blend := mix3 (uColorBase u) (uColorTip u) (vRandom * 0.5) in
        (r < 0.15 -> c = plus_scalar blend 0.6)
        /\ (0.15 <= r -> c = blend))
  /\ (forall c, main_highlight u vRandom p = Some c ->
        let blend := mix3 (uColorBase u) (uColorTip u) (vRandom * 0.4) in
        exists h, 0 <= h <= 0.2 /\ c = plus_scalar blend h).
Proof.
  cbv zeta. unfold main_sparkle, main_highlight, Rgtb.
  change (length2 {| ux := ux p - 0.5; uy := uy p - 0.5 |})
    with (distance2 p (mkVector2 0.5 0.5)).
  set (r := distance2 p (mkVector2 0.5 0.5)).
  assert (R0 : 0 <= r) by apply length2_nonneg.
  destruct (Rlt_dec 0.5 r) as [L|L].
  - split; [split; [intros _; exact L | reflexivity]|].
    split; [split; [intros _; exact L | reflexivity]|].
    split; intros c E; discriminate E.
  - split; [split; [discriminate | intro; lra]|].
    split; [split; [discriminate | intro; lra]|].
    split.
    + intros c E. inversion E; subst c; clear E.
      destruct (Rlt_dec r 0.15); split; intro; try reflexivity; lra.
    + intros c E. inversion E; subst c; clear E.
      exists (0.2 * (1 - r * 2)). split; [lra | reflexivity].
Qed.

End MaterialFacts.

(** ** geminiService with the cards it feeds *)

Section ProviderFacts.

Import GeminiService.

Variable JSON_parse : string -> option (list string).

(** X26: the copy with one default list resolves to a non-empty list in every
    case, and that list is either the defaults or, with an API key and a
    response text that parses to a non-empty array, exactly that array. *)
Theorem defaults_or_provider (API_KEY : string) (o : outcome) :
  let r := generateLuxuryGreetings_defaults JSON_parse API_KEY o in
  r <> []
  /\ (r = defaults
      \/ exists text,
           API_KEY <> EmptyString /\ o = Resolved (Some text)
           /\ text <> EmptyString /\ JSON_parse text = Some r).
Proof.
  cbv zeta. unfold generateLuxuryGreetings_defaults.
  destruct API_KEY as [|c key]; [split; [discriminate | now left]|].
  destruct o as [|[text|]]; try (split; [discriminate | now left]).
  destruct text as [|c' text]; [split; [discriminate | now left]|].
  cbn [no_text text_of].
  destruct (JSON_parse (String c' text)) as [[|s l]|] eqn:E; cbn.
  - split; [discriminate | now left].
  - split; [discriminate|]. right. exists (String c' text).
    repeat split; try discriminate. exact E.
  - split; [discriminate | now left].
Qed.

(** X27: the copy with a literal per failure hands on whatever array the text
    parses to, the empty one included; nothing else makes it resolve to an
    empty list, and then every card shows the fallback text. *)
Theorem literals_pass_empty_array (API_KEY : string) (o : outcome) :
  let r := generateLuxuryGreetings_literals JSON_parse API_KEY o in
  (r = [] <->
   API_KEY <> EmptyString
   /\ exists text, o = Resolved (Some text) /\ text <> EmptyString
                   /\ JSON_parse text = Some [])
  /\ (r = [] -> forall fallback i, GrandTree.card_text fallback r i = fallback).
Proof.
  cbv zeta. split.
  - unfold generateLuxuryGreetings_literals.
    destruct API_KEY as [|c key].
    { split; [discriminate | intros [N _]; congruence]. }
    destruct o as [|[text|]].
    + split; [discriminate | intros (_ & t & E & _); discriminate E].
    + destruct text as [|c' text].
      * split; [discriminate|]. intros (_ & t & E & N & _).
        inversion E; subst. congruence.
      * cbn [no_text text_of].
        destruct (JSON_parse (String c' text)) as [l|] eqn:E.
        -- split.
           ++ intros ->. split; [discriminate|].
              exists (String c' text). repeat split; try discriminate. exact E.
           ++ intros (_ & t & E1 & _ & E2). inversion E1; subst.
              rewrite E in E2. now inversion E2.
        -- split; [discriminate|].
           intros (_ & t & E1 & _ & E2). inversion E1; subst. congruence.
    + split; [discriminate | intros (_ & t & E & _); discriminate E].
  - intros -> fallback i. reflexivity.
Qed.

Lemma defaults_cycle (fallback : string) (i : nat) :
  exists s,
    nth_error defaults (i mod 6) = Some s
    /\ GrandTree.card_text fallback defaults i = s.
Proof.
  unfold GrandTree.card_text.
  change (List.length defaults) with 6%nat.
  change (GrandTree.js_rem i 6) with (Some (i mod 6)).
  pose proof (Nat.mod_upper_bound i 6 ltac:(lia)) as B.
  cbn [GrandTree.js_index].
  destruct (i mod 6) as [|[|[|[|[|[|n]]]]]] eqn:E; try lia;
    eexists; split; reflexivity.
Qed.

(** X28: on every failure of the provider path the cards of the copy with one
    default list cycle through the six defaults: card [i] shows
    [defaults[i mod 6]], never the fallback text. *)
Theorem failure_cards_cycle_defaults (API_KEY : string) (o : outcome)
    (fallback : string) (i : nat) :
  failed API_KEY o ->
  exists s,
    nth_error defaults (i mod 6) = Some s
    /\ GrandTree.card_text fallback
         (generateLuxuryGreetings_defaults JSON_parse API_KEY o) i = s.
Proof.
  intro F.
  rewrite (proj1 (defaults_on_failure JSON_parse API_KEY o F)).
  apply defaults_cycle.
Qed.

End ProviderFacts.

Lemma failure_cards_cycle_defaults_witness :
  exists s,
    nth_error GeminiService.defaults (7 mod 6) = Some s
    /\ GrandTree.card_text "LUXURY"
         (GeminiService.generateLuxuryGreetings_defaults (fun _ => None)
            EmptyString GeminiService.Rejected) 7 = s.
Proof.
  apply (failure_cards_cycle_defaults (fun _ => None)
           EmptyString GeminiService.Rejected "LUXURY" 7).
  left. reflexivity.
Defined.

(** ** Instances *)

Lemma skin_threshold_witness : HandController.skin 200 100 50 = true.
Proof.
  apply (proj2 (skin_threshold 200 100 50)). lia.
Defined.

Lemma settles_after_witness :
  Rabs (Progress.iterate true 0.5 200 0 - Progress.target true) <= 0.01.
Proof.
  apply (settles_after true 0.5 0 200); try lra.
  rewrite INR_IZR_INZ. change (Z.of_nat 200) with 200%Z.
  pose proof ln_100_bound. lra.
Defined.

Lemma camera_stays_in_parallax_box_witness :
  let fs := [(App.mkPointer 1 (-1), 0.016); (App.mkPointer 0.5 0.25, 0.5)] in
  let a := App.position unit
             (App.CameraRig_frames unit
                (App.CameraRig_boundary unit (fun _ _ _ => tt)) fs
                (App.initial_camera unit 24 tt)) in
  -6 <= vx a <= 6 /\ -1 <= vy a <= 7.
Proof.
  intros fs.
  apply (camera_stays_in_parallax_box unit (fun _ _ _ => tt) fs tt).
  unfold fs, Scene.rig_tame, Scene.unit_pointer.
  repeat constructor; simpl; lra.
Defined.

Lemma centre_distance : Fragment.distance2 (Fragment.mkVector2 0.5 0.5)
                          (Fragment.mkVector2 0.5 0.5) = 0.
Proof.
  unfold Fragment.distance2, Fragment.length2. simpl.
  replace ((0.5 - 0.5) * (0.5 - 0.5) + (0.5 - 0.5) * (0.5 - 0.5)) with 0
    by lra.
  apply sqrt_0.
Qed.

Lemma fragment_disc_witness :
  let u := Fragment.mkColors (mkVector3 0 0.2 0.1) (mkVector3 1 0.8 0) in
  exists c,
    Fragment.main_sparkle u 0.5 (Fragment.mkVector2 0.5 0.5) = Some c
    /\ c = Fragment.plus_scalar
             (TreeMaterials.mix3 (Fragment.uColorBase u)
                (Fragment.uColorTip u) (0.5 * 0.5)) 0.6.
Proof.
  intro u.
  destruct (fragment_disc u 0.5 (Fragment.mkVector2 0.5 0.5))
    as (N & _ & S & _).
  cbv zeta in N, S. rewrite centre_distance in N, S.
  destruct (Fragment.main_sparkle u 0.5 (Fragment.mkVector2 0.5 0.5))
    as [c|] eqn:E.
  - exists c. split; [reflexivity|].
    apply (proj1 (S c eq_refl)). lra.
  - exfalso. pose proof (proj1 N eq_refl). lra.
Defined.

Lemma literals_pass_empty_array_witness :
  GeminiService.generateLuxuryGreetings_literals (fun _ => Some [])
    "key" (GeminiService.Resolved (Some "[]"%string)) = [].
Proof.
  apply (proj2 (proj1 (literals_pass_empty_array (fun _ => Some [])
                         "key" (GeminiService.Resolved (Some "[]"%string))))).
  split; [discriminate|].
  exists "[]"%string. repeat split. discriminate.
Defined.
